(** * lambda-watchtower: a shallow embedding of [index.js]

    The probe handlers, the timing arithmetic, the metric batching and the
    incident reconciliation of [index.js] are transcribed as Rocq functions.

    Conventions of the embedding.
    - A JavaScript object used as a dictionary ([data.timings]) is a
      [gmap string _]; a key that was never written reads as [None]
      (JavaScript [undefined]).
    - A value that is either a number or [undefined] is a [jsv]; the
      JavaScript operator [||] on such values is [js_or].
    - [hrtime()] readings are pairs [(seconds, nanoseconds)]; every event
      handed to a handler carries the reading the handler would obtain.
    - Numbers are exact (rationals and integers); the rounding of IEEE
      doubles is not modelled.
    - The Node.js runtime is the environment: it chooses which events are
      delivered to the listeners and in which order.  The listeners
      themselves are the code of [index.js]. *)

From Stdlib Require Import ZArith QArith Qround List Lia.
From stdpp Require Import base option strings pretty gmap.
Import ListNotations.

Open Scope Z_scope.

(** ** JavaScript values that occur in the program *)

(** A number or [undefined]. *)
Inductive jsv : Type :=
| Undef
| Num (n : Z).

(** Truthiness: [undefined] and [0] are falsy, every other number is truthy. *)
Definition truthy (v : jsv) : bool :=
  match v with
  | Undef => false
  | Num n => negb (n =? 0)
  end.

(** [a || b] *)
Definition js_or (a b : jsv) : jsv := if truthy a then a else b.

(** [a || b] on strings that may be undefined: the empty string is falsy. *)
Definition str_or (a b : option string) : option string :=
  match a with
  | Some s => if String.eqb s EmptyString then b else a
  | None => b
  end.

(** [`${v}`] for a string that may be undefined. *)
Definition str_of (a : option string) : string :=
  match a with
  | Some s => s
  | None => "undefined"
  end.

(** ** Timing arithmetic (index.js, lines 8-23) *)

(** A reading of [process.hrtime()]: the array [[seconds, nanoseconds]]. *)
Definition hrtime : Type := (Z * Z)%type.

(** [Math.round]: the nearest integer, halves going up. *)
Definition Math_round (x : Q) : Z := Qfloor (x + (1 # 2))%Q.

(** [hrToMs = (timing) => Math.round(timing[0] * 1000 + timing[1] / 1000000)]

    The code computes the sum in binary64 before [Math.round].  For a
    reading of whole nanoseconds the exact sum is either on a half
    millisecond, which binary64 represents exactly, or at least one
    nanosecond away from it; the binary64 sum is off by less than that as
    long as it stays below 2^33, so the exact value below is the value of
    the code for all readings with fewer than 8000000 seconds
    ([reading_in_range]).  Beyond that the two can differ by one. *)
Definition hrToMs (timing : hrtime) : Z :=
  Math_round (inject_Z (fst timing) * 1000 + inject_Z (snd timing) / 1000000)%Q.

(** The readings on which [hrToMs] is known to be the value of the code. *)
Definition reading_in_range (t : hrtime) : Prop :=
  0 <= fst t < 8000000 /\ 0 <= snd t < 1000000000.

(** [hrDiff = (start, end) => hrToMs(end) - hrToMs(start)] *)
Definition hrDiff (start end_ : hrtime) : Z := hrToMs end_ - hrToMs start.

(** [timingsDiff = (timings, key1, key2) =>
      (timings[key1] && timings[key2] && hrDiff(timings[key1], timings[key2])) || -1]

    An entry of [timings] is an array, hence truthy, or [undefined]; so the
    conjunction is [undefined] when an entry is missing and the number
    [hrDiff ...] otherwise. *)
Definition timingsDiff (timings : gmap string hrtime) (key1 key2 : string) : jsv :=
  js_or
    (match timings !! key1 with
     | None => Undef
     | Some t1 =>
         match timings !! key2 with
         | None => Undef
         | Some t2 => Num (hrDiff t1 t2)
         end
     end)
    (Num (-1)).

(** The object returned by [processTimings]. *)
Record Durations : Type := mkDurations {
  d_lookup : jsv;
  d_connect : jsv;
  d_secureConnect : jsv;
  d_readable : jsv;
  d_close : jsv;
  d_total : jsv
}.

Definition processTimings (timings : gmap string hrtime) : Durations :=
  {| d_lookup := timingsDiff timings "start" "lookup";
     d_connect := timingsDiff timings "lookup" "connect";
     d_secureConnect := timingsDiff timings "connect" "secureConnect";
     d_readable := js_or (timingsDiff timings "secureConnect" "readable")
                         (timingsDiff timings "connect" "readable");
     d_close := timingsDiff timings "readable" "close";
     d_total := timingsDiff timings "start" "close" |}.

(** [durations[key]] for an arbitrary key, as far as the own properties of
    the object go: the six names.  The names every object inherits
    ([object_prototype_keys]) are not modelled; for them the code reads the
    inherited value, not [undefined]. *)
Definition object_prototype_keys : list string :=
  ["constructor"; "__proto__"; "hasOwnProperty"; "isPrototypeOf";
   "propertyIsEnumerable"; "toLocaleString"; "toString"; "valueOf";
   "__defineGetter__"; "__defineSetter__"; "__lookupGetter__"; "__lookupSetter__"].

Definition duration_get (d : Durations) (key : string) : jsv :=
  if String.eqb key "lookup" then d_lookup d
  else if String.eqb key "connect" then d_connect d
  else if String.eqb key "secureConnect" then d_secureConnect d
  else if String.eqb key "readable" then d_readable d
  else if String.eqb key "close" then d_close d
  else if String.eqb key "total" then d_total d
  else Undef.

(** The six intervals of [processTimings], with the pair of phases each one
    is first computed from. *)
Inductive interval : Type :=
| ILookup | IConnect | ISecureConnect | IReadable | IClose | ITotal.

Definition interval_from (i : interval) : string :=
  match i with
  | ILookup => "start"
  | IConnect => "lookup"
  | ISecureConnect => "connect"
  | IReadable => "secureConnect"
  | IClose => "readable"
  | ITotal => "start"
  end.

Definition interval_to (i : interval) : string :=
  match i with
  | ILookup => "lookup"
  | IConnect => "connect"
  | ISecureConnect => "secureConnect"
  | IReadable => "readable"
  | IClose => "close"
  | ITotal => "close"
  end.

Definition interval_duration (i : interval) (d : Durations) : jsv :=
  match i with
  | ILookup => d_lookup d
  | IConnect => d_connect d
  | ISecureConnect => d_secureConnect d
  | IReadable => d_readable d
  | IClose => d_close d
  | ITotal => d_total d
  end.


(** ** Targets, results and the invocation payload *)

(** One entry of [event.targets].  Every field may be missing. *)
Record Target : Type := mkTarget {
  t_name : option string;
  t_url : option string;
  t_hostname : option string;
  t_port : jsv;
  t_type : option string;
  t_component : option string
}.

(** The invocation payload. *)
Record Event : Type := mkEvent {
  targets : option (list Target);
  logTimings : option (list string);
  namespace : option string;
  timeout : jsv;
  api_host : option string;
  api_key : option string
}.

(** The object [data] built for each target; once the probe has resolved it
    is the probe's result. *)
Record Data : Type := mkData {
  name : option string;
  timings : gmap string hrtime;
  component : option string;
  statusCode : jsv;
  durations : option Durations
}.

(** The three check handlers. *)
Inductive kind : Type := Http | Port | Smtp.

(** [switch (target.type)] of lines 189-198. *)
Definition dispatch (type : option string) : kind :=
  match type with
  | Some ty =>
      if String.eqb ty "smtp" then Smtp
      else if String.eqb ty "port" then Port
      else Http
  | None => Http
  end.

(** The object literal of lines 182-188; [now] is the reading of
    [hrtime()]. *)
Definition new_data (target : Target) (now : hrtime) : Data :=
  {| name := str_or (t_name target) (t_url target);
     timings := {[ "start" := now ]};
     component := t_component target;
     statusCode := Undef;
     durations := None |}.

(** ** Metric batching (index.js, lines 30-45) *)

Section Batching.
Context {A : Type}.

(** The callback of [reduce]: open a new group when there is none or the
    last one holds 10 records, else push onto the last group. *)
Definition batch_step (acc : list (list A)) (metric : A) : list (list A) :=
  match last acc with
  | None => acc ++ [[metric]]
  | Some arr =>
      if (10 <=? length arr)%nat
      then acc ++ [[metric]]
      else removelast acc ++ [arr ++ [metric]]
  end.

(** [data.reduce(..., [])] *)
Definition batches (data : list A) : list (list A) :=
  fold_left batch_step data [].

(** The shape of the accumulator of [reduce]: every group but the last
    is full, and the last one holds between 1 and 10 records. *)
Inductive batched : list (list A) -> Prop :=
| batched_nil : batched []
| batched_snoc (full : list (list A)) (lst : list A) :
    Forall (fun g => length g = 10%nat) full ->
    (1 <= length lst <= 10)%nat ->
    batched (full ++ [lst]).
End Batching.

(** One entry of [MetricData]. *)
Record MetricRecord : Type := mkMetric {
  MetricName : string;
  Dimensions : list (option string * string);
  Value : jsv;
  Unit : option string;
  Timestamp : Z
}.

(** The argument of one [cloudwatch.putMetricData] call. *)
Record PutMetricData : Type := mkPut {
  Namespace : string;
  MetricData : list MetricRecord
}.

Definition sendData (data : list MetricRecord) (event : Event) : list PutMetricData :=
  map (fun metricData =>
         {| Namespace := str_of (str_or (namespace event) (Some "Watchtower"));
            MetricData := metricData |})
      (batches data).

(** ** Metric records (index.js, lines 201-220) *)

(** [event.logTimings || ["readable", "total"]]; an array is truthy even
    when it is empty. *)
Definition includedTimings (event : Event) : list string :=
  match logTimings event with
  | Some l => l
  | None => ["readable"; "total"]
  end.

(** [result.durations[timing]].  Every result the handler receives has
    durations; on an object without them the code throws, which the [None]
    case does not model. *)
Definition result_duration (result : Data) (timing : string) : jsv :=
  match durations result with
  | Some d => duration_get d timing
  | None => Undef
  end.

Definition timingMetric (timestamp : Z) (result : Data) (timing : string) : MetricRecord :=
  {| MetricName := "timing-" +:+ timing;
     Dimensions := [(name result, "Timing: " +:+ timing)];
     Value := result_duration result timing;
     Unit := Some "Milliseconds";
     Timestamp := timestamp |}.

Definition statusMetric (timestamp : Z) (result : Data) : MetricRecord :=
  {| MetricName := "status";
     Dimensions := [(name result, "HTTP Status")];
     Value := statusCode result;
     Unit := None;
     Timestamp := timestamp |}.

(** [results.map(result => [status, ...timingMetrics])
           .reduce((acc, val) => [...acc, ...val], [])] *)
Definition metricData (timestamp : Z) (event : Event) (results : list Data)
  : list MetricRecord :=
  fold_left (fun acc val => acc ++ val)
    (map (fun result =>
            statusMetric timestamp result
              :: map (timingMetric timestamp result) (includedTimings event))
         results)
    [].

(** The status records among the metric records. *)
Definition is_status (m : MetricRecord) : bool := String.eqb (MetricName m) "status".

(** ** Status page: components and incidents (index.js, lines 47-157) *)

(** An incident as returned by [GET incidents]. *)
Record Incident : Type := mkIncident {
  incidentID : string;
  i_name : string;
  i_status : string;
  i_message : string
}.

(** One call of [sendApiRequest]: endpoint, JSON body (an object with
    string fields, or none) and method. *)
Record ApiRequest : Type := mkApi {
  endpoint : string;
  body : option (list (string * string));
  method : string
}.

(** [`${v}`] for a number that may be undefined. *)
Definition show_jsv (v : jsv) : string :=
  match v with
  | Undef => "undefined"
  | Num n => pretty n
  end.

(** [v === 200] *)
Definition is_200 (v : jsv) : bool :=
  match v with
  | Num n => n =? 200
  | Undef => false
  end.

Definition updateComponent (result : Data) : ApiRequest :=
  let status := if is_200 (statusCode result) then "Operational" else "Major Outage" in
  {| endpoint := "components/" +:+ str_of (component result);
     body := Some [("status", status)];
     method := "PATCH" |}.

(** The filter of [getOpenIncidents] applied to the list the API returned. *)
Definition getOpenIncidents (response : list Incident) : list Incident :=
  List.filter (fun i => negb (String.eqb (i_status i) "Resolved")) response.

Definition incidentName (result : Data) : string :=
  str_of (name result) +:+ " - Site Outage".

(** The requests [createIncident] sends. *)
Definition createIncident (result : Data) (incidents : list Incident) : list ApiRequest :=
  let existing := List.filter (fun i => String.eqb (i_name i) (incidentName result)) incidents in
  if (length existing =? 0)%nat then
    [ {| endpoint := "incidents";
         body := Some [("name", incidentName result);
                       ("status", "Identified");
                       ("message", str_of (name result) +:+ " is currently unavailable (HTTP "
                                     +:+ show_jsv (statusCode result) +:+ ").")];
         method := "POST" |} ]
  else [].

(** The requests [resolveIncident] sends. *)
Definition resolveIncident (result : Data) (incidents : list Incident) : list ApiRequest :=
  let existing := List.filter (fun i => String.eqb (i_name i) (incidentName result)) incidents in
  match existing with
  | [first] =>
      [ {| endpoint := "incidents/" +:+ incidentID first;
           body := Some [("status", "Resolved");
                         ("message", str_of (name result) +:+ " is currently operating normally.")];
           method := "PATCH" |} ]
  | _ => []
  end.

(** The callback of [updateComponent(result, event).then] (lines 229-234):
    it runs when the component update has succeeded. *)
Definition on_component_updated (result : Data) (incidents : list Incident)
  : list ApiRequest :=
  if negb (is_200 (statusCode result))
  then createIncident result incidents
  else resolveIncident result incidents.

(** The body of the loop of lines 228-238 for one result: the component
    update is always sent; [update_ok] tells whether it succeeded. *)
Definition reconcile_result (update_ok : bool) (result : Data) (incidents : list Incident)
  : list ApiRequest :=
  updateComponent result
    :: (if update_ok then on_component_updated result incidents else []).

(** The incident requests among the requests sent. *)
Definition is_create (r : ApiRequest) : bool :=
  String.eqb (method r) "POST" && String.eqb (endpoint r) "incidents".

Definition is_resolve (r : ApiRequest) : bool :=
  String.eqb (method r) "PATCH" && String.prefix "incidents/" (endpoint r).

Definition is_incident_action (r : ApiRequest) : bool := is_create r || is_resolve r.

(** ** The probes (index.js, lines 177-199 and 256-381) *)

(** What the runtime decides when a probe is launched: whether
    [handler.get(url, ...)] and [socket.connect(port, hostname, ...)]
    return, or throw synchronously (an invalid url; a missing or
    out-of-range port). *)
Record Runtime : Type := mkRuntime {
  get_accepts : string -> bool;
  connect_accepts : jsv -> option string -> bool
}.

(** [createRequest]: [url.startsWith] throws a [TypeError] when [url] is
    undefined ([None] here); otherwise the scheme selects the transport,
    whose [get] returns the request or throws. *)
Inductive transport : Type := PlainHttp | Https.

Definition createRequest (rt : Runtime) (url : option string) : option transport :=
  match url with
  | None => None
  | Some u =>
      if get_accepts rt u
      then Some (if String.prefix "http://" u then PlainHttp else Https)
      else None
  end.

Inductive promise_state : Type := Pending | Fulfilled | Rejected.

(** The state of one probe: the object [data], shared by reference between
    the listeners and the promise, the promise itself, and the calls made
    on the socket or request. *)
Record Probe : Type := mkProbe {
  data : Data;
  promise : promise_state;      (* fulfilled with a reference to [data] *)
  resolve_calls : nat;          (* calls of [resolve(data)] *)
  destroyed : bool;             (* [socket.destroy()] was called *)
  ended : bool;                 (* [socket.end()] was called *)
  written : list string;        (* arguments of [socket.write] *)
  greeting : bool;              (* [smtpFlags.greeting === true] *)
  timer_live : bool;            (* the [setTimeout] of the http check is pending *)
  aborted : bool;               (* [request.abort()] was called *)
  once_readable : bool;         (* [response.once("readable")] is registered *)
  once_end : bool               (* [response.once("end")] is registered *)
}.

Definition with_data (f : Data -> Data) (p : Probe) : Probe :=
  mkProbe (f (data p)) (promise p) (resolve_calls p) (destroyed p) (ended p)
          (written p) (greeting p) (timer_live p) (aborted p)
          (once_readable p) (once_end p).

(** [data.timings[key] = hrtime()] *)
Definition set_timing (key : string) (now : hrtime) (p : Probe) : Probe :=
  with_data (fun d => mkData (name d) (<[ key := now ]> (timings d)) (component d)
                             (statusCode d) (durations d)) p.

(** [data.durations = processTimings(data.timings)] *)
Definition finalize (p : Probe) : Probe :=
  with_data (fun d => mkData (name d) (timings d) (component d) (statusCode d)
                             (Some (processTimings (timings d)))) p.

(** [data.statusCode = v] *)
Definition set_status (v : jsv) (p : Probe) : Probe :=
  with_data (fun d => mkData (name d) (timings d) (component d) v (durations d)) p.

(** [data.statusCode = typeof data.statusCode !== "undefined" ? data.statusCode : 0] *)
Definition default_status (p : Probe) : Probe :=
  set_status (match statusCode (data p) with Undef => Num 0 | v => v end) p.

(** [resolve(data)]: settles a pending promise, has no effect on a settled
    one. *)
Definition resolve (p : Probe) : Probe :=
  mkProbe (data p)
          (match promise p with Pending => Fulfilled | s => s end)
          (S (resolve_calls p)) (destroyed p) (ended p)
          (written p) (greeting p) (timer_live p) (aborted p)
          (once_readable p) (once_end p).

Definition socket_destroy (p : Probe) : Probe :=
  mkProbe (data p) (promise p) (resolve_calls p) true (ended p)
          (written p) (greeting p) (timer_live p) (aborted p)
          (once_readable p) (once_end p).

Definition socket_end (p : Probe) : Probe :=
  mkProbe (data p) (promise p) (resolve_calls p) (destroyed p) true
          (written p) (greeting p) (timer_live p) (aborted p)
          (once_readable p) (once_end p).

Definition socket_write (s : string) (p : Probe) : Probe :=
  mkProbe (data p) (promise p) (resolve_calls p) (destroyed p) (ended p)
          (written p ++ [s]) (greeting p) (timer_live p) (aborted p)
          (once_readable p) (once_end p).

Definition set_greeting (p : Probe) : Probe :=
  mkProbe (data p) (promise p) (resolve_calls p) (destroyed p) (ended p)
          (written p) true (timer_live p) (aborted p)
          (once_readable p) (once_end p).

Definition clearTimeout (p : Probe) : Probe :=
  mkProbe (data p) (promise p) (resolve_calls p) (destroyed p) (ended p)
          (written p) (greeting p) false (aborted p)
          (once_readable p) (once_end p).

Definition request_abort (p : Probe) : Probe :=
  mkProbe (data p) (promise p) (resolve_calls p) (destroyed p) (ended p)
          (written p) (greeting p) false true
          (once_readable p) (once_end p).

Definition set_once (r e : bool) (p : Probe) : Probe :=
  mkProbe (data p) (promise p) (resolve_calls p) (destroyed p) (ended p)
          (written p) (greeting p) (timer_live p) (aborted p) r e.

(** The events the runtime delivers to the listeners of a probe.
    [EvTimer] is the expiry of the [setTimeout] of the http check;
    [EvTimeout] is the socket's ["timeout"] event. *)
Inductive event : Type :=
| EvLookup
| EvConnect
| EvSecureConnect
| EvResponse (code : Z)
| EvReadable
| EvEnd
| EvData (chunk : string)
| EvError
| EvTimeout
| EvClose
| EvTimer.

Definition EHLO : string :=
  "EHLO lambda-watchtower.test"
  +:+ String (Ascii.ascii_of_nat 13) (String (Ascii.ascii_of_nat 10) EmptyString).

(** [handlers.http] *)
Definition http_step (p : Probe) (ev : event) (now : hrtime) : Probe :=
  match ev with
  | EvResponse code => set_once true true (set_status (Num code) p)
  | EvReadable =>
      if once_readable p
      then set_timing "readable" now (set_once false (once_end p) p)
      else p
  | EvEnd =>
      if once_end p
      then set_timing "end" now (set_once (once_readable p) false p)
      else p
  | EvTimer => if timer_live p then request_abort p else p
  | EvLookup => set_timing "lookup" now p
  | EvConnect => set_timing "connect" now p
  | EvSecureConnect => set_timing "secureConnect" now p
  | EvClose => resolve (clearTimeout (finalize (set_timing "close" now p)))
  | EvError =>
      resolve (clearTimeout (default_status (finalize (set_timing "close" now p))))
  | EvData _ | EvTimeout => p
  end.

(** The three terminal listeners of [handlers.port] and [handlers.smtp]
    differ only in the status code they store. *)
Definition socket_terminal (status : Z) (p : Probe) (now : hrtime) : Probe :=
  resolve (socket_destroy (set_status (Num status)
            (finalize (set_timing "close" now p)))).

(** [handlers.port] *)
Definition port_step (p : Probe) (ev : event) (now : hrtime) : Probe :=
  match ev with
  | EvConnect => set_timing "connect" now p
  | EvLookup => set_timing "lookup" now p
  | EvData _ => socket_end (set_timing "readable" now p)
  | EvEnd => set_timing "end" now p
  | EvError => socket_terminal (-1) p now
  | EvTimeout => socket_terminal (-1) p now
  | EvClose => socket_terminal 0 p now
  | EvSecureConnect | EvResponse _ | EvReadable | EvTimer => p
  end.

(** [handlers.smtp]; [smtpdata.match(/^220/)] is a prefix test. *)
Definition smtp_step (p : Probe) (ev : event) (now : hrtime) : Probe :=
  match ev with
  | EvConnect => set_timing "connect" now p
  | EvLookup => set_timing "lookup" now p
  | EvData smtpdata =>
      if String.prefix "220" smtpdata && negb (greeting p)
      then set_greeting (socket_write EHLO p)
      else if String.prefix "250" smtpdata
      then socket_end (set_timing "readable" now p)
      else p
  | EvEnd => set_timing "end" now p
  | EvError => socket_terminal (-1) p now
  | EvTimeout => socket_terminal (-1) p now
  | EvClose => socket_terminal 0 p now
  | EvSecureConnect | EvResponse _ | EvReadable | EvTimer => p
  end.

Definition step (k : kind) (p : Probe) (e : event * hrtime) : Probe :=
  match k with
  | Http => http_step p (fst e) (snd e)
  | Port => port_step p (fst e) (snd e)
  | Smtp => smtp_step p (fst e) (snd e)
  end.

(** The listeners run on the events in the order of delivery. *)
Definition run (k : kind) (p : Probe) (trace : list (event * hrtime)) : Probe :=
  fold_left (step k) trace p.

(** The probe as the handler leaves it, before any event. *)
Definition init (k : kind) (d : Data) : Probe :=
  {| data := d; promise := Pending; resolve_calls := 0;
     destroyed := false; ended := false; written := []; greeting := false;
     timer_live := match k with Http => true | _ => false end;
     aborted := false; once_readable := false; once_end := false |}.

(** The executor of the promise of lines 181-199.  It throws, and the
    promise is rejected ([None]), when [createRequest] throws in the http
    check or [socket.connect] throws in the port and smtp checks. *)
Definition launch (rt : Runtime) (target : Target) (now : hrtime) : option Probe :=
  let d := new_data target now in
  match dispatch (t_type target) with
  | Http =>
      match createRequest rt (t_url target) with
      | Some _ => Some (init Http d)
      | None => None
      end
  | k =>
      if connect_accepts rt (t_port target) (t_hostname target)
      then Some (init k d)
      else None
  end.

(** The events on which a listener of the probe calls [resolve]. *)
Definition terminal (k : kind) (ev : event) : bool :=
  match ev with
  | EvError | EvClose => true
  | EvTimeout => match k with Http => false | _ => true end
  | _ => false
  end.

(** The result is populated: it has durations and a status code. *)
Definition populated (d : Data) : Prop :=
  is_Some (durations d) /\ statusCode d <> Undef /\ is_Some (timings d !! "close").

(** A chunk that starts with [220]. *)
Definition is_greeting_chunk (ev : event) : bool :=
  match ev with
  | EvData smtpdata => String.prefix "220" smtpdata
  | _ => false
  end.

(** ** The synchronous part of [exports.handler] (lines 177-199) *)

Inductive effect : Type :=
| Callback (error : string)
| LaunchProbe (k : kind) (target : Target).

Inductive completion : Type :=
| Returned
| Threw (exn : string).

(** [if (!targets) callback("No targets given")] is followed, whatever
    [targets] is, by [targets.map(...)], which throws a [TypeError] on
    [undefined]. *)
Definition handler_start (event : Event) : list effect * completion :=
  let called :=
    match targets event with
    | None => [Callback "No targets given"]
    | Some _ => []
    end in
  match targets event with
  | None => (called, Threw "TypeError")
  | Some ts =>
      (called ++ map (fun target => LaunchProbe (dispatch (t_type target)) target) ts,
       Returned)
  end.

Definition is_launch (e : effect) : bool :=
  match e with
  | LaunchProbe _ _ => true
  | Callback _ => false
  end.

(** ** Sample inputs *)

(** The timings of a probe whose [lookup] event came 100 ns after [start]. *)
Definition timings_same_ms : gmap string hrtime :=
  <[ "lookup" := (5, 200) ]> {[ "start" := (5, 100) ]}.

(** The timings of a plaintext probe: no [secureConnect] event. *)
Definition timings_plaintext : gmap string hrtime :=
  <[ "close" := (0, 9000000) ]>
    (<[ "readable" := (0, 8000000) ]>
       (<[ "connect" := (0, 3000000) ]>
          (<[ "lookup" := (0, 1000000) ]> {[ "start" := (0, 0) ]}))).

(** An invocation without [targets]. *)
Definition event_no_targets : Event :=
  {| targets := None; logTimings := None; namespace := None; timeout := Undef;
     api_host := None; api_key := None |}.

(** A target with neither [type] nor [name]. *)
Definition target_bare : Target :=
  {| t_name := None; t_url := Some "https://example.org/"; t_hostname := None;
     t_port := Undef; t_type := None; t_component := None |}.

(** A result for the target [X] and an open incident that matches it. *)
Definition result_X (status : jsv) : Data :=
  {| name := Some "X"; timings := ∅; component := Some "7";
     statusCode := status; durations := None |}.

Definition incident_X : Incident :=
  {| incidentID := "42"; i_name := "X - Site Outage"; i_status := "Identified";
     i_message := "X is currently unavailable (HTTP 500)." |}.

(** A runtime that accepts http and https urls and ports from 0 to 65535. *)
Definition runtime_sample : Runtime :=
  {| get_accepts := fun u => String.prefix "http://" u || String.prefix "https://" u;
     connect_accepts := fun port _ =>
       match port with
       | Num n => (0 <=? n) && (n <? 65536)
       | Undef => false
       end |}.

(** A target meant for a tcp check, with a [type] the switch does not know
    and no [url]. *)
Definition target_unknown_type : Target :=
  {| t_name := Some "db"; t_url := None; t_hostname := Some "db.example.org";
     t_port := Num 5432; t_type := Some "tcp"; t_component := None |}.

(** A port target, an smtp target and an http target. *)
Definition target_port : Target :=
  {| t_name := Some "db"; t_url := None; t_hostname := Some "db.example.org";
     t_port := Num 5432; t_type := Some "port"; t_component := None |}.

Definition target_smtp : Target :=
  {| t_name := Some "mail"; t_url := None; t_hostname := Some "mail.example.org";
     t_port := Num 25; t_type := Some "smtp"; t_component := None |}.

Definition target_http : Target :=
  {| t_name := Some "site"; t_url := Some "https://example.org/"; t_hostname := None;
     t_port := Undef; t_type := None; t_component := Some "7" |}.

(** A refused connection on a port probe: the runtime reports the error,
    then the close of the socket the [error] listener has destroyed. *)
Definition trace_port_refused : list (event * hrtime) :=
  [(EvError, (1, 4000000)); (EvClose, (1, 4100000))].

(** An smtp server that accepts the connection and stays silent: the
    socket times out and the socket the [timeout] listener has destroyed
    is closed. *)
Definition trace_smtp_silent : list (event * hrtime) :=
  [(EvLookup, (1, 1000000)); (EvConnect, (1, 3000000));
   (EvTimeout, (6, 3000000)); (EvClose, (6, 3100000))].

(** An http probe that times out while connecting: the timer fires, the
    runtime reports the abort as an error and then closes the request. *)
Definition trace_http_connecting : list (event * hrtime) :=
  [(EvLookup, (1, 2000000)); (EvTimer, (6, 0))].

Definition trace_http_closing : list (event * hrtime) :=
  [(EvClose, (6, 200000))].

(** An https probe answered with 404. *)
Definition trace_http_404 : list (event * hrtime) :=
  [(EvLookup, (1, 1000000)); (EvConnect, (1, 3000000));
   (EvSecureConnect, (1, 9000000)); (EvResponse 404, (1, 20000000));
   (EvReadable, (1, 21000000)); (EvEnd, (1, 24000000)); (EvClose, (1, 25000000))].

(** The start of an smtp session: connection, then the greeting. *)
Definition trace_smtp_greeted : list (event * hrtime) :=
  [(EvConnect, (1, 2000000)); (EvData "220 mail.example.org ESMTP", (1, 5000000))].

(** ** The reconciliation loop (index.js, lines 96-104 and 227-241) *)

(** The requests of the reconciliation branch, grouped by result.  The
    list of incidents is fetched once, before the loop; [fetched] is the
    list the API returned, or [None] when the request failed.  Each result
    comes with the outcome of its component update.

    The list says which requests are sent, not when: the component updates
    are sent in the order of the results, and the incident request of a
    result is sent when the response to its component update arrives, in
    an order the runtime decides. *)
Definition reconcile (fetched : option (list Incident)) (results : list (Data * bool))
  : list ApiRequest :=
  {| endpoint := "incidents"; body := None; method := "GET" |}
    :: match fetched with
       | None => []
       | Some response =>
           flat_map (fun x => reconcile_result (snd x) (fst x) (getOpenIncidents response))
                    results
       end.

(** A component update. *)
Definition is_component_update (r : ApiRequest) : bool :=
  String.eqb (method r) "PATCH" && String.prefix "components/" (endpoint r).

(** ** Names used to state properties of the probes *)

(** The phase names a listener may write. *)
Definition timing_keys : gset string :=
  list_to_set ["start"; "lookup"; "connect"; "secureConnect"; "readable"; "end"; "close"].

(** The names of the six durations. *)
Definition duration_keys : list string :=
  ["lookup"; "connect"; "secureConnect"; "readable"; "close"; "total"].

(** The reading carried by the last [data] event of a trace. *)
Definition last_data_time (trace : list (event * hrtime)) : option hrtime :=
  fold_left (fun acc x => match fst x with EvData _ => Some (snd x) | _ => acc end)
            trace None.

(** A chunk that starts with [250], and the reading carried by the last
    such chunk of a trace. *)
Definition is_ok_chunk (ev : event) : bool :=
  match ev with
  | EvData smtpdata => String.prefix "250" smtpdata
  | _ => false
  end.

Definition last_ok_time (trace : list (event * hrtime)) : option hrtime :=
  fold_left (fun acc x => if is_ok_chunk (fst x) then Some (snd x) else acc)
            trace None.

(** Whether a stamp is present. *)
Definition stamped (o : option hrtime) : bool :=
  match o with
  | Some _ => true
  | None => false
  end.

Definition is_response (ev : event) : bool :=
  match ev with
  | EvResponse _ => true
  | _ => false
  end.

(** Two unhealthy results for the same target name. *)
Definition results_twice_X : list (Data * bool) :=
  [(result_X (Num 503), true); (result_X (Num 0), true)].

(** A port probe that receives two chunks before the connection closes. *)
Definition trace_port_two_chunks : list (event * hrtime) :=
  [(EvConnect, (1, 2000000)); (EvData "a", (1, 5000000)); (EvData "b", (1, 6000000))].

(** An http probe whose response is followed by an error and a close. *)
Definition trace_http_response_then_error : list (event * hrtime) :=
  [(EvError, (1, 30000000)); (EvClose, (1, 31000000))].

(** The timings of an https probe with every phase recorded. *)
Definition timings_https : gmap string hrtime :=
  <[ "close" := (1, 25000000) ]>
    (<[ "readable" := (1, 21000000) ]>
       (<[ "secureConnect" := (1, 9000000) ]>
          (<[ "connect" := (1, 3000000) ]>
             (<[ "lookup" := (1, 1000000) ]> {[ "start" := (1, 0) ]})))).

(** * Properties *)

(** ** Timing arithmetic *)

Example ex_hrToMs : hrToMs (5, 1500000) = 5002.
Proof. vm_compute. reflexivity. Qed.

(** [hrToMs] in integer arithmetic: nanoseconds to milliseconds, halves
    going up. *)
Lemma hrToMs_Z (t : hrtime) :
  hrToMs t = (fst t * 1000000000 + snd t + 500000) / 1000000.
Proof.
  destruct t as [s ns]. unfold hrToMs, Math_round. cbn [fst snd].
  transitivity (Qfloor ((s * 1000000000 + ns + 500000) # 1000000)).
  - apply Qfloor_comp.
    unfold Qeq, Qplus, Qmult, Qdiv, Qinv, inject_Z. cbn. lia.
  - reflexivity.
Qed.

(** Later readings convert to later (or equal) milliseconds. *)
Lemma hrToMs_mono (a b : hrtime) :
  fst a * 1000000000 + snd a <= fst b * 1000000000 + snd b ->
  hrToMs a <= hrToMs b.
Proof.
  intros H. rewrite !hrToMs_Z. apply Z.div_le_mono; lia.
Qed.

(** [timingsDiff] never returns a falsy value. *)
Lemma timingsDiff_truthy (t : gmap string hrtime) (k1 k2 : string) :
  truthy (timingsDiff t k1 k2) = true.
Proof.
  unfold timingsDiff, js_or.
  destruct (t !! k1) as [a|]; [destruct (t !! k2) as [b|] |]; cbn; try reflexivity.
  destruct (hrDiff a b =? 0) eqn:E; cbn; [reflexivity | now rewrite E].
Qed.

Lemma timingsDiff_absent (t : gmap string hrtime) (k1 k2 : string) :
  t !! k1 = None \/ t !! k2 = None -> timingsDiff t k1 k2 = Num (-1).
Proof.
  unfold timingsDiff. intros [H|H]; rewrite H; [reflexivity |].
  destruct (t !! k1); reflexivity.
Qed.

Lemma timingsDiff_present (t : gmap string hrtime) (k1 k2 : string) (a b : hrtime) :
  t !! k1 = Some a -> t !! k2 = Some b ->
  timingsDiff t k1 k2 = if hrDiff a b =? 0 then Num (-1) else Num (hrDiff a b).
Proof.
  unfold timingsDiff, js_or. intros -> ->. cbn.
  destruct (hrDiff a b =? 0); reflexivity.
Qed.

(** The second operand of [||] in the [readable] entry is never used. *)
Lemma readable_is_secure_baseline (t : gmap string hrtime) :
  d_readable (processTimings t) = timingsDiff t "secureConnect" "readable".
Proof.
  cbn [processTimings d_readable]. unfold js_or at 1.
  now rewrite timingsDiff_truthy.
Qed.

(** Each interval is computed by [timingsDiff] from its pair of phases. *)
Lemma interval_duration_spec (i : interval) (t : gmap string hrtime) :
  interval_duration i (processTimings t)
  = timingsDiff t (interval_from i) (interval_to i).
Proof.
  destruct i; try reflexivity. apply readable_is_secure_baseline.
Qed.

(** Where the code agrees with the description of [finalize]: a missing
    endpoint gives [-1]; two recorded endpoints whose millisecond values
    differ give their difference, which is positive when the endpoints are
    in order. *)
Lemma interval_duration_absent (i : interval) (t : gmap string hrtime) :
  t !! interval_from i = None \/ t !! interval_to i = None ->
  interval_duration i (processTimings t) = Num (-1).
Proof. rewrite interval_duration_spec. apply timingsDiff_absent. Qed.

Lemma interval_duration_nonzero (i : interval) (t : gmap string hrtime) (a b : hrtime) :
  t !! interval_from i = Some a -> t !! interval_to i = Some b ->
  hrToMs a <> hrToMs b ->
  interval_duration i (processTimings t) = Num (hrToMs b - hrToMs a)
  /\ (fst a * 1000000000 + snd a <= fst b * 1000000000 + snd b ->
      0 < hrToMs b - hrToMs a).
Proof.
  intros Ha Hb Hne. rewrite interval_duration_spec, (timingsDiff_present _ _ _ a b) by assumption.
  unfold hrDiff. destruct (Z.eqb_spec (hrToMs b - hrToMs a) 0) as [E|E]; [lia |].
  split; [reflexivity |]. intros Hle. apply hrToMs_mono in Hle. lia.
Qed.

(** C1.  The claim: when both endpoints of an interval are recorded the
    duration is the millisecond difference, a non-negative integer when the
    endpoints are in order.  On [timings_same_ms] both endpoints of the
    [lookup] interval are recorded, in order, and their millisecond values
    are equal, so the duration should be [0]; [processTimings] returns
    [-1], because [0 || -1] is [-1]. *)
Theorem C1_zero_duration_reported_as_missing :
  timings_same_ms !! interval_from ILookup = Some (5, 100)
  /\ timings_same_ms !! interval_to ILookup = Some (5, 200)
  /\ hrToMs (5, 200) - hrToMs (5, 100) = 0
  /\ interval_duration ILookup (processTimings timings_same_ms) = Num (-1).
Proof. vm_compute. repeat split; reflexivity. Qed.

(** C2.  The claim: without [secureConnect] the [readable] duration falls
    back to connect-to-readable.  On [timings_plaintext] there is no
    [secureConnect], connect-to-readable is 5 ms, and [processTimings]
    returns [-1] for [readable]: the first operand of [||] is [-1], which
    is truthy, so the fallback is never evaluated. *)
Theorem C2_readable_fallback_not_taken :
  timings_plaintext !! "secureConnect" = None
  /\ timingsDiff timings_plaintext "connect" "readable" = Num 5
  /\ d_readable (processTimings timings_plaintext) = Num (-1).
Proof. vm_compute. repeat split; reflexivity. Qed.

(** ** Metric batching *)

Section BatchingProofs.
Context {A : Type}.

Lemma batch_step_batched (acc : list (list A)) (metric : A) :
  batched acc -> batched (batch_step acc metric).
Proof.
  intros [|full lst Hfull Hlst]; unfold batch_step.
  - cbn. apply (batched_snoc [] [metric]); [constructor | cbn; lia].
  - rewrite last_snoc. destruct (Nat.leb_spec 10 (length lst)) as [Hge|Hlt].
    + apply batched_snoc; [| cbn; lia].
      apply Forall_app. split; [assumption |].
      constructor; [lia | constructor].
    + rewrite removelast_last. apply batched_snoc; [assumption |].
      rewrite length_app. cbn. lia.
Qed.

Lemma batch_step_concat (acc : list (list A)) (metric : A) :
  concat (batch_step acc metric) = concat acc ++ [metric].
Proof.
  unfold batch_step. destruct (last acc) as [arr|] eqn:Hlast.
  - destruct (10 <=? length arr)%nat.
    + rewrite concat_app. cbn. reflexivity.
    + apply last_Some in Hlast as [full ->].
      rewrite removelast_last, !concat_app. cbn.
      rewrite !app_nil_r. now rewrite <- app_assoc.
  - rewrite concat_app. cbn. reflexivity.
Qed.

Lemma fold_batch_step (data : list A) (acc : list (list A)) :
  batched acc ->
  batched (fold_left batch_step data acc)
  /\ concat (fold_left batch_step data acc) = concat acc ++ data.
Proof.
  revert acc. induction data as [|metric data IH]; intros acc Hacc; cbn.
  - split; [assumption | now rewrite app_nil_r].
  - destruct (IH (batch_step acc metric)) as [Hb Hc].
    + now apply batch_step_batched.
    + split; [assumption |].
      rewrite Hc, batch_step_concat. now rewrite <- app_assoc.
Qed.

Lemma batched_sizes (groups : list (list A)) :
  batched groups ->
  Forall (fun g => (1 <= length g <= 10)%nat) groups
  /\ (length (concat groups) <= 10 * length groups < length (concat groups) + 10)%nat.
Proof.
  intros [|full lst Hfull Hlst].
  - split; [constructor | cbn; lia].
  - assert (Hlen : length (concat full) = (10 * length full)%nat).
    { induction Hfull as [|g full Hg _ IH]; cbn; [reflexivity |].
      rewrite length_app, IH, Hg. lia. }
    split.
    + apply Forall_app. split.
      * eapply Forall_impl; [exact Hfull |]. cbn. intros g Hg. lia.
      * constructor; [assumption | constructor].
    + rewrite concat_app. cbn [concat]. rewrite app_nil_r, !length_app, Hlen.
      cbn [length]. lia.
Qed.

(** C5.  For every list of records, the groups built by the [reduce] of
    [sendData] are consecutive and keep the order (their concatenation is
    the input), each holds between 1 and 10 records, and their number is
    the ceiling of the number of records divided by 10. *)
Theorem C5_batches_partition (data : list A) :
  concat (batches data) = data
  /\ Forall (fun g => (1 <= length g <= 10)%nat) (batches data)
  /\ length (batches data) = ((length data + 9) / 10)%nat
  /\ (length data <= 10 * length (batches data) < length data + 10)%nat.
Proof.
  destruct (fold_batch_step data [] batched_nil) as [Hb Hc].
  fold (batches data) in Hb, Hc. cbn in Hc.
  destruct (batched_sizes _ Hb) as [Hsz Hn]. rewrite Hc in Hn.
  split; [assumption |]. split; [assumption |]. split; [| assumption].
  apply (Nat.div_unique _ 10 _ (length data + 9 - 10 * length (batches data))); lia.
Qed.
End BatchingProofs.

(** Every [putMetricData] call of [sendData] carries one group. *)
Lemma sendData_groups (data : list MetricRecord) (event : Event) :
  map MetricData (sendData data event) = batches data.
Proof.
  unfold sendData. rewrite map_map. cbn. apply map_id.
Qed.

Example ex_batches : batches (seq 0 23) = [seq 0 10; seq 10 10; seq 20 3].
Proof. reflexivity. Qed.

(** ** Metric records *)

Lemma fold_left_app_concat {A : Type} (l : list (list A)) (init : list A) :
  fold_left (fun acc val => acc ++ val) l init = init ++ concat l.
Proof.
  revert init. induction l as [|x l IH]; intros init; cbn.
  - now rewrite app_nil_r.
  - rewrite IH. now rewrite <- app_assoc.
Qed.

(** The records of one result: its status record, then its timing records. *)
Lemma metricData_blocks (timestamp : Z) (event : Event) (results : list Data) :
  metricData timestamp event results
  = concat (map (fun result =>
                   statusMetric timestamp result
                     :: map (timingMetric timestamp result) (includedTimings event))
                results).
Proof. unfold metricData. now rewrite fold_left_app_concat. Qed.

Lemma timingMetric_not_status (timestamp : Z) (result : Data) (keys : list string) :
  List.filter is_status (map (timingMetric timestamp result) keys) = []
  /\ List.filter (fun m => negb (is_status m)) (map (timingMetric timestamp result) keys)
     = map (timingMetric timestamp result) keys.
Proof.
  induction keys as [|key keys [IH1 IH2]]; [split; reflexivity |].
  cbn [map List.filter].
  assert (E : is_status (timingMetric timestamp result key) = false) by reflexivity.
  rewrite E. cbn [negb]. rewrite IH1, IH2. split; reflexivity.
Qed.

(** C6.  For N results and K included timings, [metricData] holds
    N * (K + 1) records; its status records are, in order, one per result
    with the result's status code as value; the other records are the K
    timing records of each result; and the included timings are
    [logTimings] when it is given, [readable] and [total] when it is not. *)
Theorem C6_metric_record_count (timestamp : Z) (event : Event) (results : list Data) :
  length (metricData timestamp event results)
  = (length results * (length (includedTimings event) + 1))%nat
  /\ map Value (List.filter is_status (metricData timestamp event results))
     = map statusCode results
  /\ List.filter (fun m => negb (is_status m)) (metricData timestamp event results)
     = concat (map (fun result =>
                      map (timingMetric timestamp result) (includedTimings event))
                   results)
  /\ includedTimings event
     = match logTimings event with
       | Some keys => keys
       | None => ["readable"; "total"]
       end.
Proof.
  rewrite metricData_blocks.
  split; [| split; [| split; [| reflexivity]]].
  - induction results as [|r results IH]; [reflexivity |].
    cbn [map concat]. rewrite length_app, IH. cbn [length].
    rewrite length_map. lia.
  - induction results as [|r results IH]; [reflexivity |].
    cbn [map concat]. rewrite List.filter_app, map_app, IH.
    cbn [List.filter]. change (is_status (statusMetric timestamp r)) with true.
    cbv iota. destruct (timingMetric_not_status timestamp r (includedTimings event)) as [-> _].
    reflexivity.
  - induction results as [|r results IH]; [reflexivity |].
    cbn [map concat]. rewrite List.filter_app, IH.
    cbn [List.filter]. change (is_status (statusMetric timestamp r)) with true.
    cbn [negb]. cbv iota.
    destruct (timingMetric_not_status timestamp r (includedTimings event)) as [_ ->].
    reflexivity.
Qed.

(** ** The entry point *)

(** C7.  When the event has no [targets], the first and only effect of the
    handler is the call [callback("No targets given")]; no probe is
    launched, and the handler does not go on: [targets.map] throws. *)
Theorem C7_missing_targets (event : Event) :
  targets event = None ->
  fst (handler_start event) = [Callback "No targets given"]
  /\ List.filter is_launch (fst (handler_start event)) = []
  /\ snd (handler_start event) = Threw "TypeError".
Proof.
  intros H. unfold handler_start. rewrite H. cbn. repeat split; reflexivity.
Qed.

Lemma C7_missing_targets_witness :
  targets event_no_targets = None
  /\ fst (handler_start event_no_targets) = [Callback "No targets given"]
  /\ List.filter is_launch (fst (handler_start event_no_targets)) = []
  /\ snd (handler_start event_no_targets) = Threw "TypeError".
Proof.
  split; [reflexivity |]. apply (C7_missing_targets event_no_targets). reflexivity.
Defined.

(** With [targets] present, one probe is launched per target, in order,
    and the callback is not called synchronously. *)
Lemma handler_start_targets (event : Event) (ts : list Target) :
  targets event = Some ts ->
  handler_start event
  = (map (fun target => LaunchProbe (dispatch (t_type target)) target) ts, Returned).
Proof. intros H. unfold handler_start. now rewrite H. Qed.

(** ** Incident reconciliation *)

Lemma is_200_true (v : jsv) : is_200 v = true <-> v = Num 200.
Proof.
  destruct v as [|n]; cbn; [split; discriminate |].
  rewrite Z.eqb_eq. split; [now intros -> | now intros [= ->]].
Qed.

Lemma is_200_false (v : jsv) : is_200 v = false <-> v <> Num 200.
Proof.
  rewrite <- is_200_true. destruct (is_200 v); split; congruence.
Qed.

Lemma prefix_append (s x : string) : String.prefix s (s +:+ x) = true.
Proof.
  induction s as [|a s IH].
  - destruct x; reflexivity.
  - change (String.prefix (String a s) (String a (s +:+ x)) = true).
    cbn [String.prefix]. destruct (Ascii.ascii_dec a a); [exact IH | congruence].
Qed.

(** Once the component update of a result has succeeded, the incident
    requests sent for it are decided by the open incidents whose name is
    exactly [<name> - Site Outage]: for an unhealthy result (status code
    other than 200), one [POST incidents] with status [Identified] when
    none matches and nothing when some match; for a healthy result, one
    [PATCH incidents/<id>] with status [Resolved] when exactly one matches
    and nothing otherwise. *)
Lemma incident_actions_when_updated (result : Data) (incidents : list Incident) :
  let expected := str_of (name result) +:+ " - Site Outage" in
  let matching := List.filter (fun i => String.eqb (i_name i) expected) incidents in
  let actions := List.filter is_incident_action (reconcile_result true result incidents) in
  (statusCode result <> Num 200 -> matching = [] ->
   exists message,
     actions = [ {| endpoint := "incidents";
                    body := Some [("name", expected); ("status", "Identified");
                                  ("message", message)];
                    method := "POST" |} ])
  /\ (statusCode result <> Num 200 -> matching <> [] -> actions = [])
  /\ (statusCode result = Num 200 -> forall i, matching = [i] ->
      exists message,
        actions = [ {| endpoint := "incidents/" +:+ incidentID i;
                       body := Some [("status", "Resolved"); ("message", message)];
                       method := "PATCH" |} ])
  /\ (statusCode result = Num 200 -> length matching <> 1%nat -> actions = []).
Proof.
  cbv zeta. unfold reconcile_result, on_component_updated.
  cbn [List.filter]. change (is_incident_action (updateComponent result)) with false.
  cbv iota. unfold createIncident, resolveIncident, incidentName.
  set (matching := List.filter _ incidents).
  repeat split.
  - intros Hs Hm. apply is_200_false in Hs. rewrite Hs, Hm. cbn. eauto.
  - intros Hs Hm. apply is_200_false in Hs. rewrite Hs. cbn [negb].
    destruct matching; [congruence | reflexivity].
  - intros Hs i Hm. apply is_200_true in Hs. rewrite Hs, Hm. cbn [negb].
    cbn [List.filter]. eexists.
    match goal with |- (if ?b then _ else _) = _ => replace b with true end.
    + reflexivity.
    + unfold is_incident_action, is_create, is_resolve. cbn [method endpoint].
      rewrite prefix_append. reflexivity.
  - intros Hs Hm. apply is_200_true in Hs. rewrite Hs. cbn [negb].
    destruct matching as [|i [|j rest]]; cbn in Hm; try reflexivity. congruence.
Qed.

(** The claim of C8 has no condition on the component update.  When the
    update of an unhealthy result fails and no open incident has its name,
    no incident is created. *)
Lemma C8_counterexample :
  statusCode (result_X (Num 503)) <> Num 200
  /\ List.filter (fun i => String.eqb (i_name i) "X - Site Outage") [] = []
  /\ List.filter is_incident_action (reconcile_result false (result_X (Num 503)) []) = [].
Proof. repeat split. discriminate. Qed.

(** C8, amended.  The incident requests for a result are sent from the
    callback of its component update.  When the update fails none is
    sent.  When it succeeds they are decided by the open incidents whose
    name is exactly [<name> - Site Outage]: for an unhealthy result (status
    code other than 200), one [POST incidents] with status [Identified]
    when none matches and nothing when some match; for a healthy result,
    one [PATCH incidents/<id>] with status [Resolved] when exactly one
    matches and nothing otherwise. *)
Theorem C8_incident_reconciliation
  (update_ok : bool) (result : Data) (incidents : list Incident) :
  let expected := str_of (name result) +:+ " - Site Outage" in
  let matching := List.filter (fun i => String.eqb (i_name i) expected) incidents in
  let actions :=
    List.filter is_incident_action (reconcile_result update_ok result incidents) in
  (update_ok = false -> actions = [])
  /\ (update_ok = true ->
      (statusCode result <> Num 200 -> matching = [] ->
       exists message,
         actions = [ {| endpoint := "incidents";
                        body := Some [("name", expected); ("status", "Identified");
                                      ("message", message)];
                        method := "POST" |} ])
      /\ (statusCode result <> Num 200 -> matching <> [] -> actions = [])
      /\ (statusCode result = Num 200 -> forall i, matching = [i] ->
          exists message,
            actions = [ {| endpoint := "incidents/" +:+ incidentID i;
                           body := Some [("status", "Resolved"); ("message", message)];
                           method := "PATCH" |} ])
      /\ (statusCode result = Num 200 -> length matching <> 1%nat -> actions = [])).
Proof.
  cbv zeta. split.
  - intros ->. unfold reconcile_result. cbn [List.filter].
    change (is_incident_action (updateComponent result)) with false. reflexivity.
  - intros ->. exact (incident_actions_when_updated result incidents).
Qed.

Lemma C8_incident_reconciliation_witness :
  (exists message,
     List.filter is_incident_action (reconcile_result true (result_X (Num 200)) [incident_X])
     = [ {| endpoint := "incidents/42";
            body := Some [("status", "Resolved"); ("message", message)];
            method := "PATCH" |} ])
  /\ (exists message,
        List.filter is_incident_action (reconcile_result true (result_X (Num 503)) [])
        = [ {| endpoint := "incidents";
               body := Some [("name", "X - Site Outage"); ("status", "Identified");
                             ("message", message)];
               method := "POST" |} ])
  /\ List.filter is_incident_action (reconcile_result false (result_X (Num 503)) []) = [].
Proof.
  pose proof (C8_incident_reconciliation true (result_X (Num 200)) [incident_X]) as H200.
  pose proof (C8_incident_reconciliation true (result_X (Num 503)) []) as H503.
  pose proof (C8_incident_reconciliation false (result_X (Num 503)) []) as Hfail.
  cbv zeta in H200, H503, Hfail.
  destruct H200 as (_ & H200). destruct (H200 eq_refl) as (_ & _ & Hres & _).
  destruct H503 as (_ & H503). destruct (H503 eq_refl) as (Hcre & _ & _ & _).
  destruct Hfail as (Hfail & _).
  split; [| split].
  - exact (Hres eq_refl incident_X eq_refl).
  - apply Hcre; [discriminate | reflexivity].
  - exact (Hfail eq_refl).
Defined.

(** ** The probes *)

(** Unfold one listener call down to the fields of the probe. *)
Ltac step_simpl :=
  cbn [step http_step port_step smtp_step socket_terminal resolve clearTimeout
       default_status finalize set_timing set_status with_data socket_destroy
       socket_end socket_write set_greeting request_abort set_once
       data promise resolve_calls destroyed ended written greeting timer_live
       aborted once_readable once_end
       name timings component statusCode durations fst snd terminal
       is_greeting_chunk] in *.

Ltac step_cases k e :=
  destruct k; destruct e as [[] ?]; step_simpl;
  repeat match goal with
    | |- context [if ?b then _ else _] => destruct b eqn:?; step_simpl
    end.

Lemma run_app (k : kind) (p : Probe) (tr1 tr2 : list (event * hrtime)) :
  run k p (tr1 ++ tr2) = run k (run k p tr1) tr2.
Proof. apply fold_left_app. Qed.

Lemma run_cons (k : kind) (p : Probe) (e : event * hrtime) (tr : list (event * hrtime)) :
  run k p (e :: tr) = run k (step k p e) tr.
Proof. reflexivity. Qed.

(** An invariant of single steps is an invariant of runs. *)
Lemma run_invariant (I : Probe -> Prop) (k : kind) :
  (forall p e, I p -> I (step k p e)) ->
  forall tr p, I p -> I (run k p tr).
Proof.
  intros Hstep tr. induction tr as [|e tr IH]; intros p Hp; [exact Hp |].
  rewrite run_cons. apply IH, Hstep, Hp.
Qed.

(** No listener changes the name of the result. *)
Lemma step_name (k : kind) (p : Probe) (e : event * hrtime) :
  name (data (step k p e)) = name (data p).
Proof. step_cases k e; reflexivity. Qed.

Lemma run_name (k : kind) (tr : list (event * hrtime)) (p : Probe) :
  name (data (run k p tr)) = name (data p).
Proof.
  revert p. induction tr as [|e tr IH]; intros p; [reflexivity |].
  rewrite run_cons, IH. apply step_name.
Qed.

(** No listener calls [reject]. *)
Lemma step_not_rejected (k : kind) (p : Probe) (e : event * hrtime) :
  promise p <> Rejected -> promise (step k p e) <> Rejected.
Proof. step_cases k e; intros H; try exact H; destruct (promise p); congruence. Qed.

(** A settled promise stays as it is. *)
Lemma step_fulfilled (k : kind) (p : Probe) (e : event * hrtime) :
  promise p = Fulfilled -> promise (step k p e) = Fulfilled.
Proof. step_cases k e; intros H; try exact H; now rewrite H. Qed.

(** Only the terminal listeners call [resolve]. *)
Lemma step_nonterminal (k : kind) (p : Probe) (e : event * hrtime) :
  terminal k (fst e) = false ->
  promise (step k p e) = promise p /\ resolve_calls (step k p e) = resolve_calls p.
Proof. step_cases k e; intros H; try discriminate; split; reflexivity. Qed.

Lemma run_nonterminal (k : kind) (tr : list (event * hrtime)) (p : Probe) :
  Forall (fun x => terminal k (fst x) = false) tr ->
  promise (run k p tr) = promise p /\ resolve_calls (run k p tr) = resolve_calls p.
Proof.
  revert p. induction tr as [|e tr IH]; intros p Hall; [split; reflexivity |].
  apply Forall_cons in Hall as [He Hall]. rewrite run_cons.
  destruct (IH (step k p e) Hall) as [-> ->]. now apply step_nonterminal.
Qed.

(** [resolve] is called once by every terminal listener, settled promise
    or not. *)
Lemma step_resolve_calls (k : kind) (p : Probe) (e : event * hrtime) :
  resolve_calls (step k p e)
  = (resolve_calls p + (if terminal k (fst e) then 1 else 0))%nat.
Proof. step_cases k e; lia. Qed.

Lemma run_resolve_calls (k : kind) (tr : list (event * hrtime)) (p : Probe) :
  resolve_calls (run k p tr)
  = (resolve_calls p + length (List.filter (fun x => terminal k (fst x)) tr))%nat.
Proof.
  revert p. induction tr as [|e tr IH]; intros p; cbn [List.filter length].
  { unfold run. cbn [fold_left]. lia. }
  rewrite run_cons, IH, step_resolve_calls.
  destruct (terminal k (fst e)); cbn [length]; lia.
Qed.

(** A terminal listener stamps [close], computes the durations, and calls
    [resolve] once. *)
Lemma step_terminal (k : kind) (p : Probe) (ev : event) (now : hrtime) :
  terminal k ev = true ->
  promise p <> Rejected ->
  promise (step k p (ev, now)) = Fulfilled
  /\ resolve_calls (step k p (ev, now)) = S (resolve_calls p)
  /\ is_Some (durations (data (step k p (ev, now))))
  /\ timings (data (step k p (ev, now))) !! "close" = Some now.
Proof.
  intros Hterm Hrej.
  destruct k, ev; step_simpl; try discriminate;
    (repeat split; [destruct (promise p); congruence | eexists; reflexivity
                   | apply lookup_insert_eq]).
Qed.

(** The status code, the durations and the [close] stamp are never
    removed. *)
Lemma step_status_defined (k : kind) (p : Probe) (e : event * hrtime) :
  statusCode (data p) <> Undef -> statusCode (data (step k p e)) <> Undef.
Proof.
  step_cases k e; intros H; try exact H; try discriminate.
  destruct (statusCode (data p)); [congruence | discriminate].
Qed.

Lemma step_durations_defined (k : kind) (p : Probe) (e : event * hrtime) :
  is_Some (durations (data p)) -> is_Some (durations (data (step k p e))).
Proof. step_cases k e; intros H; try exact H; eexists; reflexivity. Qed.

Lemma insert_close_defined (key : string) (now : hrtime) (t : gmap string hrtime) :
  is_Some (t !! "close") -> is_Some (<[ key := now ]> t !! "close").
Proof.
  intros H. destruct (decide (key = "close")) as [->|Hne].
  - rewrite lookup_insert_eq. eexists; reflexivity.
  - now rewrite lookup_insert_ne.
Qed.

Lemma step_close_defined (k : kind) (p : Probe) (e : event * hrtime) :
  is_Some (timings (data p) !! "close") ->
  is_Some (timings (data (step k p e)) !! "close").
Proof.
  step_cases k e; intros H; try exact H; now apply insert_close_defined.
Qed.

Lemma step_populated (k : kind) (p : Probe) (e : event * hrtime) :
  populated (data p) -> populated (data (step k p e)).
Proof.
  intros (Hd & Hs & Hc). repeat split.
  - now apply step_durations_defined.
  - now apply step_status_defined.
  - now apply step_close_defined.
Qed.

(** The probe as launched: pending, nothing recorded but [start]. *)
Lemma launch_init (rt : Runtime) (target : Target) (now : hrtime) (p : Probe) :
  launch rt target now = Some p ->
  p = init (dispatch (t_type target)) (new_data target now).
Proof.
  unfold launch. destruct (dispatch (t_type target)).
  - destruct (createRequest rt (t_url target)); [now intros [= <-] | discriminate].
  - destruct (connect_accepts rt _ _); [now intros [= <-] | discriminate].
  - destruct (connect_accepts rt _ _); [now intros [= <-] | discriminate].
Qed.

Lemma run_not_rejected (k : kind) (d : Data) (tr : list (event * hrtime)) :
  promise (run k (init k d) tr) <> Rejected.
Proof.
  apply (run_invariant (fun p => promise p <> Rejected)).
  - intros p e. apply step_not_rejected.
  - discriminate.
Qed.

(** What each terminal listener of a port or smtp probe leaves behind:
    right after [close] the result carries status code 0; right after
    [error] or [timeout] it carries -1 and [socket.destroy()] has been
    called.  This is the state at that moment only: a later terminal event
    writes the status code again. *)
Lemma socket_last_event_status
  (k : kind) (target : Target) (t0 : hrtime)
  (trace : list (event * hrtime)) (e : event) (now : hrtime) :
  k <> Http ->
  let p := run k (init k (new_data target t0)) (trace ++ [(e, now)]) in
  (e = EvClose ->
   statusCode (data p) = Num 0 /\ promise p = Fulfilled)
  /\ (e = EvError \/ e = EvTimeout ->
      statusCode (data p) = Num (-1) /\ destroyed p = true /\ promise p = Fulfilled).
Proof.
  intros Hk p. subst p. rewrite run_app.
  pose proof (run_not_rejected k (new_data target t0) trace) as Hrej.
  set (p0 := run k (init k (new_data target t0)) trace) in *.
  cbn [run fold_left].
  assert (Hp : forall ev, terminal k ev = true ->
                          promise (step k p0 (ev, now)) = Fulfilled).
  { intros ev Hev. now apply step_terminal. }
  split.
  - intros ->. split; [| apply Hp; reflexivity].
    destruct k; [congruence | reflexivity | reflexivity].
  - intros He.
    assert (Hterm : terminal k e = true).
    { destruct He as [-> | ->]; [reflexivity |]. destruct k; [congruence | |]; reflexivity. }
    split; [| split; [| now apply Hp]];
      (destruct k; [congruence | |]); destruct He as [-> | ->]; reflexivity.
Qed.

(** When [close] follows [error], the [close] listener runs on the same
    object: the status code stored by the [error] listener is overwritten
    and [resolve] is called a second time. *)
Lemma socket_error_then_close (k : kind) (p : Probe) (t1 t2 : hrtime) :
  k <> Http ->
  let q := run k p [(EvError, t1); (EvClose, t2)] in
  statusCode (data (step k p (EvError, t1))) = Num (-1)
  /\ statusCode (data q) = Num 0
  /\ resolve_calls q = S (S (resolve_calls p)).
Proof. intros Hk. destruct k; [congruence | |]; repeat split; reflexivity. Qed.

(** C3.  The claim gives a refused or timed-out port or smtp probe the
    status code -1.  The [error] and [timeout] listeners store -1 and call
    [socket.destroy()]; the socket then emits [close], and the [close]
    listener, which has no guard, stores 0 in the same object and calls
    [resolve] again.  On a refused port ([error], [close]) and on a silent
    smtp server ([timeout], [close]) the result the promise holds ends with
    status code 0. *)
Theorem C3_status_overwritten_by_close :
  statusCode (data (run Port (init Port (new_data target_port (1, 0)))
                        (firstn 1 trace_port_refused))) = Num (-1)
  /\ statusCode (data (run Port (init Port (new_data target_port (1, 0)))
                           trace_port_refused)) = Num 0
  /\ resolve_calls (run Port (init Port (new_data target_port (1, 0)))
                        trace_port_refused) = 2%nat
  /\ statusCode (data (run Smtp (init Smtp (new_data target_smtp (1, 0)))
                           (firstn 3 trace_smtp_silent))) = Num (-1)
  /\ statusCode (data (run Smtp (init Smtp (new_data target_smtp (1, 0)))
                           trace_smtp_silent)) = Num 0
  /\ resolve_calls (run Smtp (init Smtp (new_data target_smtp (1, 0)))
                        trace_smtp_silent) = 2%nat.
Proof. vm_compute. repeat split; reflexivity. Qed.

(** Status code of an http probe before its terminal event: set by the
    response, and by nothing else. *)
Lemma http_response_status (pre : list (event * hrtime)) (p : Probe) (code : Z) (t : hrtime) :
  In (EvResponse code, t) pre ->
  statusCode (data (run Http p pre)) <> Undef.
Proof.
  revert p. induction pre as [|e pre IH]; intros p Hin; [destruct Hin |].
  rewrite run_cons. destruct Hin as [-> | Hin]; [| now apply IH].
  apply (run_invariant (fun q => statusCode (data q) <> Undef)).
  - intros q e. apply step_status_defined.
  - discriminate.
Qed.

Lemma http_no_response_status (pre : list (event * hrtime)) (p : Probe) :
  Forall (fun x => terminal Http (fst x) = false) pre ->
  (forall code t, ~ In (EvResponse code, t) pre) ->
  statusCode (data (run Http p pre)) = statusCode (data p).
Proof.
  revert p. induction pre as [|e pre IH]; intros p Hall Hno; [reflexivity |].
  apply Forall_cons in Hall as [He Hall]. rewrite run_cons, IH.
  - destruct e as [[] t]; step_simpl; try discriminate; try reflexivity.
    + exfalso. eapply Hno. left. reflexivity.
    + destruct (once_readable p); reflexivity.
    + destruct (once_end p); reflexivity.
    + destruct (timer_live p); reflexivity.
  - exact Hall.
  - intros code t Hin. eapply Hno. right. exact Hin.
Qed.

(** The claim of C4 fails on two inputs.  A target whose [type] the switch
    does not know is handed to the http check; without [url],
    [createRequest] throws and the promise is rejected.  An http request
    that is closed with neither a response nor an error is fulfilled with a
    result whose status code is [undefined]. *)
Lemma C4_counterexample :
  launch runtime_sample target_unknown_type (1, 0) = None
  /\ promise (run Http (init Http (new_data target_http (1, 0))) trace_http_closing)
     = Fulfilled
  /\ statusCode (data (run Http (init Http (new_data target_http (1, 0)))
                           trace_http_closing))
     = Undef.
Proof. vm_compute. repeat split; reflexivity. Qed.

(** C4, amended.  Take any probe whose executor did not throw, any events
    that do not end it, and then the first terminal event [e]: [error],
    [close] (for http, after a response), or, on a socket, [timeout].  The
    promise is pending before [e]; the listener of [e] makes the first call
    of [resolve] and fulfils it with a result that has durations, a [close]
    stamp and a status code.  Whatever events follow, no listener rejects
    the promise, it stays fulfilled and its result keeps those three; every
    later terminal event calls [resolve] again.  An http [error] with no
    response before it stores status code 0. *)
Theorem C4_probe_resolves_once
  (rt : Runtime) (target : Target) (t0 : hrtime) (p_init : Probe)
  (pre : list (event * hrtime)) (e : event) (now : hrtime)
  (post : list (event * hrtime)) :
  launch rt target t0 = Some p_init ->
  let k := dispatch (t_type target) in
  Forall (fun x => terminal k (fst x) = false) pre ->
  terminal k e = true ->
  (k = Http -> e = EvClose -> exists code t, In (EvResponse code, t) pre) ->
  let p0 := run k p_init pre in
  let p1 := step k p0 (e, now) in
  let p2 := run k p1 post in
  promise p0 = Pending
  /\ (promise p1 = Fulfilled /\ resolve_calls p1 = 1%nat /\ populated (data p1))
  /\ (promise p2 = Fulfilled /\ populated (data p2)
      /\ resolve_calls p2
         = (1 + length (List.filter (fun x => terminal k (fst x)) post))%nat)
  /\ (k = Http -> e = EvError -> (forall code t, ~ In (EvResponse code, t) pre) ->
      statusCode (data p1) = Num 0).
Proof.
  intros Hlaunch k Hpre Hterm Hresp p0 p1 p2.
  apply launch_init in Hlaunch. fold k in Hlaunch.
  destruct (run_nonterminal k pre p_init Hpre) as [Hprom Hcalls].
  fold p0 in Hprom, Hcalls. rewrite Hlaunch in Hprom, Hcalls.
  cbn [init promise resolve_calls] in Hprom, Hcalls.
  assert (Hrej : promise p0 <> Rejected) by (rewrite Hprom; discriminate).
  destruct (step_terminal k p0 e now Hterm Hrej) as (Hful & Hone & Hdur & Hclose).
  fold p1 in Hful, Hone, Hdur, Hclose. rewrite Hcalls in Hone.
  assert (Hpop : populated (data p1)).
  { split; [exact Hdur |]. split; [| rewrite Hclose; eexists; reflexivity].
    subst p1. destruct k eqn:Ek.
    - destruct e; try discriminate; step_simpl.
      + destruct (statusCode (data p0)); discriminate.
      + destruct (Hresp eq_refl eq_refl) as (code & t & Hin).
        subst p0. now apply (http_response_status pre p_init code t).
    - destruct e; try discriminate; step_simpl; discriminate.
    - destruct e; try discriminate; step_simpl; discriminate. }
  split; [exact Hprom |].
  split; [split; [exact Hful | split; [exact Hone | exact Hpop]] |]. split.
  - split; [| split].
    + apply (run_invariant (fun q => promise q = Fulfilled)); [| exact Hful].
      intros q x. apply step_fulfilled.
    + apply (run_invariant (fun q => populated (data q))); [| exact Hpop].
      intros q x. apply step_populated.
    + subst p2. now rewrite run_resolve_calls, Hone.
  - intros Ek -> Hno. subst p1 p0. revert Hpre. rewrite Ek. intros Hpre.
    step_simpl. rewrite (http_no_response_status pre p_init Hpre Hno), Hlaunch.
    reflexivity.
Qed.

Lemma C4_probe_resolves_once_witness :
  launch runtime_sample target_http (1, 0) = Some (init Http (new_data target_http (1, 0)))
  /\ promise (run Http (init Http (new_data target_http (1, 0))) trace_http_connecting)
     = Pending
  /\ promise (run Http (init Http (new_data target_http (1, 0)))
                  (trace_http_connecting ++ (EvError, (6, 100000)) :: trace_http_closing))
     = Fulfilled
  /\ statusCode (data (step Http
                         (run Http (init Http (new_data target_http (1, 0)))
                              trace_http_connecting)
                         (EvError, (6, 100000))))
     = Num 0.
Proof.
  pose proof (C4_probe_resolves_once runtime_sample target_http (1, 0)
                (init Http (new_data target_http (1, 0)))
                trace_http_connecting EvError (6, 100000) trace_http_closing) as H.
  cbv zeta in H.
  destruct H as (Hpending & _ & (Hfulfilled & _) & Hzero).
  - reflexivity.
  - repeat constructor.
  - reflexivity.
  - intros _ Hclose. discriminate Hclose.
  - split; [reflexivity |]. split; [exact Hpending |]. split.
    + rewrite run_app, run_cons. exact Hfulfilled.
    + apply Hzero; [reflexivity | reflexivity |].
      intros code t [Hin | [Hin | []]]; discriminate Hin.
Defined.

Example ex_http_404 :
  let p := run Http (init Http (new_data target_http (1, 0))) trace_http_404 in
  statusCode (data p) = Num 404
  /\ durations (data p)
     = Some {| d_lookup := Num 1; d_connect := Num 2; d_secureConnect := Num 6;
               d_readable := Num 12; d_close := Num 4; d_total := Num 25 |}
  /\ promise p = Fulfilled
  /\ timer_live p = false.
Proof. vm_compute. repeat split; reflexivity. Qed.

(** *** The SMTP exchange *)

(** What the [data] listener of the smtp check does to the socket and to
    the flag. *)
Lemma smtp_step_written (p : Probe) (e : event * hrtime) :
  written (step Smtp p e)
  = (if is_greeting_chunk (fst e) && negb (greeting p)
     then written p ++ [EHLO] else written p)
  /\ greeting (step Smtp p e)
     = (greeting p || is_greeting_chunk (fst e))%bool.
Proof.
  destruct e as [[] t]; step_simpl; try (now rewrite orb_false_r).
  destruct (String.prefix "220" chunk); destruct (greeting p) eqn:G;
    cbn [andb negb orb]; step_simpl;
    try (destruct (String.prefix "250" chunk)); step_simpl;
    rewrite ?G; split; reflexivity.
Qed.

Lemma smtp_written_invariant (p : Probe) (e : event * hrtime) :
  written p = (if greeting p then [EHLO] else []) ->
  written (step Smtp p e) = (if greeting (step Smtp p e) then [EHLO] else []).
Proof.
  intros H. destruct (smtp_step_written p e) as [-> ->]. rewrite H.
  destruct (greeting p), (is_greeting_chunk (fst e)); reflexivity.
Qed.

(** A chunk that starts with [250] does not start with [220]. *)
Lemma prefix_250_not_220 (chunk : string) :
  String.prefix "250" chunk = true -> String.prefix "220" chunk = false.
Proof.
  destruct chunk as [|a [|b chunk]]; cbn [String.prefix]; try discriminate.
  - destruct (Ascii.ascii_dec _ a); discriminate.
  - destruct (Ascii.ascii_dec _ a); [| discriminate].
    destruct (Ascii.ascii_dec _ b) as [<-|]; [| discriminate].
    intros _. destruct (Ascii.ascii_dec _ _) as [E|]; [discriminate E | reflexivity].
Qed.

(** C9.  In every execution of the smtp check, [EHLO] is written at most
    once.  A listener call writes it exactly when the event is a chunk that
    starts with [220] and the greeting flag is unset, and such a chunk
    leaves the flag set, so later chunks write nothing.  A chunk that
    starts with [250] stamps [readable] and ends the socket, and the
    [close] that follows fulfils the promise with status code 0. *)
Theorem C9_smtp_ehlo_once (d : Data) (trace : list (event * hrtime)) :
  let p := run Smtp (init Smtp d) trace in
  (length (written p) <= 1)%nat
  /\ written p = (if greeting p then [EHLO] else [])
  /\ (forall e,
        written (step Smtp p e)
        = if is_greeting_chunk (fst e) && negb (greeting p)
          then written p ++ [EHLO] else written p)
  /\ (forall e, is_greeting_chunk (fst e) = true -> greeting (step Smtp p e) = true)
  /\ (forall chunk now,
        String.prefix "250" chunk = true ->
        let q := step Smtp p (EvData chunk, now) in
        timings (data q) !! "readable" = Some now
        /\ ended q = true
        /\ written q = written p
        /\ forall now',
            statusCode (data (step Smtp q (EvClose, now'))) = Num 0
            /\ promise (step Smtp q (EvClose, now')) = Fulfilled).
Proof.
  intros p.
  assert (Hinv : written p = (if greeting p then [EHLO] else [])).
  { subst p. apply (run_invariant (fun q => written q = if greeting q then [EHLO] else [])).
    - intros q e. apply smtp_written_invariant.
    - reflexivity. }
  split; [rewrite Hinv; destruct (greeting p); cbn; lia |].
  split; [exact Hinv |].
  split; [intros e; apply smtp_step_written |].
  split.
  - intros e He. destruct (smtp_step_written p e) as [_ ->]. rewrite He.
    apply orb_true_r.
  - intros chunk now H250 q. subst q. step_simpl.
    rewrite (prefix_250_not_220 chunk H250), H250. cbn [andb]. step_simpl.
    split; [apply lookup_insert_eq |]. split; [reflexivity |]. split; [reflexivity |].
    intros now'. split; [reflexivity |].
    pose proof (run_not_rejected Smtp d trace) as Hrej. fold p in Hrej.
    destruct (promise p); [reflexivity | reflexivity | congruence].
Qed.

Lemma C9_smtp_ehlo_once_witness :
  written (run Smtp (init Smtp (new_data target_smtp (1, 0))) trace_smtp_greeted) = [EHLO]
  /\ written (step Smtp
                (run Smtp (init Smtp (new_data target_smtp (1, 0))) trace_smtp_greeted)
                (EvData "220 again", (1, 6000000)))
     = [EHLO]
  /\ statusCode
       (data (step Smtp
                (step Smtp
                   (run Smtp (init Smtp (new_data target_smtp (1, 0))) trace_smtp_greeted)
                   (EvData "250 OK", (1, 7000000)))
                (EvClose, (1, 8000000))))
     = Num 0.
Proof.
  pose proof (C9_smtp_ehlo_once (new_data target_smtp (1, 0)) trace_smtp_greeted) as H.
  cbv zeta in H. destruct H as (_ & Hwritten & Hstep & _ & H250).
  split; [exact Hwritten |]. split.
  - rewrite Hstep. exact Hwritten.
  - destruct (H250 "250 OK" (1, 7000000) eq_refl) as (_ & _ & _ & Hclose).
    apply (Hclose (1, 8000000)).
Defined.

(** *** Dispatch and naming *)

(** C10.  A target whose [type] is neither [port] nor [smtp], or is
    missing, is checked by the http handler; and the result of a target
    without [name] is named by the target's [url], whatever the check and
    the events. *)
Theorem C10_default_check_and_name (target : Target) (now : hrtime) :
  (t_type target <> Some "port" -> t_type target <> Some "smtp" ->
   dispatch (t_type target) = Http)
  /\ (t_name target = None ->
      forall k trace,
        name (data (run k (init k (new_data target now)) trace)) = t_url target).
Proof.
  split.
  - intros Hport Hsmtp. unfold dispatch. destruct (t_type target) as [ty|]; [| reflexivity].
    destruct (String.eqb_spec ty "smtp") as [->|_]; [congruence |].
    destruct (String.eqb_spec ty "port") as [->|_]; [congruence | reflexivity].
  - intros Hname k trace. rewrite run_name. cbn. now rewrite Hname.
Qed.

Lemma C10_default_check_and_name_witness :
  dispatch (t_type target_bare) = Http
  /\ name (data (run Http (init Http (new_data target_bare (1, 0))) trace_http_closing))
     = Some "https://example.org/".
Proof.
  destruct (C10_default_check_and_name target_bare (1, 0)) as [Hcheck Hname].
  split.
  - apply Hcheck; discriminate.
  - apply Hname. reflexivity.
Defined.

(** * Further properties of the code *)

(** ** Timing arithmetic *)

(** X1.  For a reading below 8000000 seconds, [hrToMs] is off by at most
    half a millisecond: the reading, in nanoseconds, lies within 500000 ns
    of the millisecond value returned, halves being rounded up. *)
Theorem hrToMs_rounding_error (t : hrtime) :
  reading_in_range t ->
  1000000 * hrToMs t - 500000 <= fst t * 1000000000 + snd t
  < 1000000 * hrToMs t + 500000.
Proof.
  intros _. rewrite hrToMs_Z.
  pose proof (Z.div_mod (fst t * 1000000000 + snd t + 500000) 1000000 ltac:(lia)) as Hdm.
  pose proof (Z.mod_pos_bound (fst t * 1000000000 + snd t + 500000) 1000000 ltac:(lia)).
  lia.
Qed.

Lemma hrToMs_rounding_error_witness :
  reading_in_range (5, 1500000)
  /\ 1000000 * hrToMs (5, 1500000) - 500000 <= 5 * 1000000000 + 1500000
     < 1000000 * hrToMs (5, 1500000) + 500000.
Proof.
  assert (H : reading_in_range (5, 1500000)) by (unfold reading_in_range; cbn; lia).
  split; [exact H |]. exact (hrToMs_rounding_error (5, 1500000) H).
Defined.

(** X2.  When both endpoints of an interval are recorded below 8000000
    seconds and their millisecond values differ, the duration returned is
    within one millisecond of the elapsed time between the two readings. *)
Theorem interval_duration_accuracy
  (i : interval) (t : gmap string hrtime) (a b : hrtime) :
  t !! interval_from i = Some a -> t !! interval_to i = Some b ->
  reading_in_range a -> reading_in_range b ->
  hrToMs a <> hrToMs b ->
  exists d,
    interval_duration i (processTimings t) = Num d
    /\ let elapsed := (fst b * 1000000000 + snd b) - (fst a * 1000000000 + snd a) in
       elapsed - 1000000 < 1000000 * d < elapsed + 1000000.
Proof.
  intros Ha Hb _ _ Hne.
  destruct (interval_duration_nonzero i t a b Ha Hb Hne) as [Hd _].
  exists (hrToMs b - hrToMs a). split; [exact Hd |]. cbv zeta.
  rewrite !hrToMs_Z.
  pose proof (Z.div_mod (fst a * 1000000000 + snd a + 500000) 1000000 ltac:(lia)).
  pose proof (Z.mod_pos_bound (fst a * 1000000000 + snd a + 500000) 1000000 ltac:(lia)).
  pose proof (Z.div_mod (fst b * 1000000000 + snd b + 500000) 1000000 ltac:(lia)).
  pose proof (Z.mod_pos_bound (fst b * 1000000000 + snd b + 500000) 1000000 ltac:(lia)).
  lia.
Qed.

Lemma interval_duration_accuracy_witness :
  exists d,
    interval_duration ISecureConnect (processTimings timings_https) = Num d
    /\ 6000000 - 1000000 < 1000000 * d < 6000000 + 1000000.
Proof.
  apply (interval_duration_accuracy ISecureConnect timings_https (1, 3000000) (1, 9000000));
    [reflexivity | reflexivity
     | unfold reading_in_range; cbn; lia | unfold reading_in_range; cbn; lia
     | vm_compute; discriminate].
Defined.

(** X3.  Every entry of [processTimings] is an integer, never
    [undefined]: it is [-1], or the difference of the millisecond values of
    the two recorded endpoints of its interval. *)
Theorem durations_are_integers (t : gmap string hrtime) (i : interval) :
  exists n,
    interval_duration i (processTimings t) = Num n
    /\ (n = -1
        \/ exists a b, t !! interval_from i = Some a /\ t !! interval_to i = Some b
                       /\ n = hrToMs b - hrToMs a).
Proof.
  rewrite interval_duration_spec.
  destruct (t !! interval_from i) as [a|] eqn:Ha.
  - destruct (t !! interval_to i) as [b|] eqn:Hb.
    + rewrite (timingsDiff_present t _ _ a b Ha Hb).
      destruct (hrDiff a b =? 0); eexists; (split; [reflexivity |]).
      * left. reflexivity.
      * right. exists a, b. repeat split; reflexivity.
    + rewrite timingsDiff_absent by (right; exact Hb).
      eexists. split; [reflexivity | left; reflexivity].
  - rewrite timingsDiff_absent by (left; exact Ha).
    eexists. split; [reflexivity | left; reflexivity].
Qed.

Lemma hrDiff_chain (a b c : hrtime) : hrDiff a c = hrDiff a b + hrDiff b c.
Proof. unfold hrDiff. lia. Qed.

(** X4.  When every phase is recorded and no two consecutive phases, nor
    [start] and [close], fall in the same millisecond, the five phase
    durations add up to the total. *)
Theorem phase_durations_sum_to_total
  (t : gmap string hrtime) (s l c sc r cl : hrtime) :
  t !! "start" = Some s -> t !! "lookup" = Some l -> t !! "connect" = Some c ->
  t !! "secureConnect" = Some sc -> t !! "readable" = Some r -> t !! "close" = Some cl ->
  hrToMs s <> hrToMs l -> hrToMs l <> hrToMs c -> hrToMs c <> hrToMs sc ->
  hrToMs sc <> hrToMs r -> hrToMs r <> hrToMs cl -> hrToMs s <> hrToMs cl ->
  exists d1 d2 d3 d4 d5,
    processTimings t
    = {| d_lookup := Num d1; d_connect := Num d2; d_secureConnect := Num d3;
         d_readable := Num d4; d_close := Num d5;
         d_total := Num (d1 + d2 + d3 + d4 + d5) |}.
Proof.
  intros Hs Hl Hc Hsc Hr Hcl N1 N2 N3 N4 N5 N6.
  exists (hrToMs l - hrToMs s), (hrToMs c - hrToMs l), (hrToMs sc - hrToMs c),
         (hrToMs r - hrToMs sc), (hrToMs cl - hrToMs r).
  destruct (interval_duration_nonzero ILookup t s l Hs Hl N1) as [E1 _].
  destruct (interval_duration_nonzero IConnect t l c Hl Hc N2) as [E2 _].
  destruct (interval_duration_nonzero ISecureConnect t c sc Hc Hsc N3) as [E3 _].
  destruct (interval_duration_nonzero IReadable t sc r Hsc Hr N4) as [E4 _].
  destruct (interval_duration_nonzero IClose t r cl Hr Hcl N5) as [E5 _].
  destruct (interval_duration_nonzero ITotal t s cl Hs Hcl N6) as [E6 _].
  cbn [interval_duration] in E1, E2, E3, E4, E5, E6.
  destruct (processTimings t) as [x1 x2 x3 x4 x5 x6].
  cbn [d_lookup d_connect d_secureConnect d_readable d_close d_total] in *.
  subst. do 5 f_equal. lia.
Qed.

Lemma phase_durations_sum_to_total_witness :
  exists d1 d2 d3 d4 d5,
    processTimings timings_https
    = {| d_lookup := Num d1; d_connect := Num d2; d_secureConnect := Num d3;
         d_readable := Num d4; d_close := Num d5;
         d_total := Num (d1 + d2 + d3 + d4 + d5) |}.
Proof.
  apply (phase_durations_sum_to_total timings_https
           (1, 0) (1, 1000000) (1, 3000000) (1, 9000000) (1, 21000000) (1, 25000000));
    try reflexivity; vm_compute; discriminate.
Defined.

(** X5.  For a result that has durations, a timing name that is neither
    one of the six durations nor a name every object inherits yields a
    metric whose value is [undefined]. *)
Theorem unknown_timing_metric_undefined (timestamp : Z) (result : Data) (timing : string) :
  is_Some (durations result) ->
  ~ In timing duration_keys ->
  ~ In timing object_prototype_keys ->
  Value (timingMetric timestamp result timing) = Undef.
Proof.
  intros [d Hd] Hnot _. cbn [timingMetric Value]. unfold result_duration.
  rewrite Hd. unfold duration_get.
  repeat match goal with
    | |- context [String.eqb timing ?k] =>
        destruct (String.eqb_spec timing k) as [->|_];
        [exfalso; apply Hnot; cbn; tauto |]
    end.
  reflexivity.
Qed.

Lemma unknown_timing_metric_undefined_witness :
  Value (timingMetric 0
           (data (run Http (init Http (new_data target_http (1, 0))) trace_http_404))
           "end")
  = Undef.
Proof.
  apply (unknown_timing_metric_undefined 0
           (data (run Http (init Http (new_data target_http (1, 0))) trace_http_404))
           "end").
  - eexists. vm_compute. reflexivity.
  - cbn. intros H. repeat (destruct H as [H | H]; [discriminate H |]). exact H.
  - cbn. intros H. repeat (destruct H as [H | H]; [discriminate H |]). exact H.
Defined.

(** ** Metric batching and submission *)

Lemma batches_batched {A : Type} (data : list A) :
  batched (batches data) /\ concat (batches data) = data.
Proof. exact (fold_batch_step data [] batched_nil). Qed.

Lemma batches_count {A : Type} (data : list A) :
  length (batches data) = ((length data + 9) / 10)%nat.
Proof.
  destruct (batches_batched data) as [Hb Hc].
  destruct (batched_sizes _ Hb) as [_ Hn]. rewrite Hc in Hn.
  apply (Nat.div_unique _ 10 _ (length data + 9 - 10 * length (batches data))); lia.
Qed.

(** X6.  The groups are filled greedily: every group but the last holds
    exactly 10 records. *)
Theorem batches_full_before_last {A : Type} (data : list A) (i : nat) (g : list A) :
  batches data !! i = Some g ->
  (S i < length (batches data))%nat ->
  length g = 10%nat.
Proof.
  destruct (batches_batched data) as [Hb _].
  destruct Hb as [|full lst Hfull _]; [discriminate |].
  rewrite length_app. cbn [length]. intros Hg Hi.
  rewrite lookup_app_l in Hg by lia.
  exact (Forall_lookup_1 _ _ _ _ Hfull Hg).
Qed.

Lemma batches_full_before_last_witness :
  batches (seq 0 23) !! 0%nat = Some (seq 0 10) /\ length (seq 0 10) = 10%nat.
Proof.
  split; [reflexivity |].
  apply (batches_full_before_last (seq 0 23) 0 (seq 0 10)); [reflexivity | cbn; lia].
Defined.

Lemma batch_step_nonempty {A : Type} (acc : list (list A)) (metric : A) :
  batch_step acc metric <> [].
Proof.
  unfold batch_step. destruct (last acc); [destruct (10 <=? length l)%nat |];
    intros H; apply app_eq_nil in H as [_ H]; discriminate H.
Qed.

Lemma batch_step_app {A : Type} (acc bs : list (list A)) (metric : A) :
  bs <> [] -> batch_step (acc ++ bs) metric = acc ++ batch_step bs metric.
Proof.
  intros Hne. destruct (exists_last Hne) as (bs' & g & ->).
  rewrite app_assoc. unfold batch_step. rewrite !last_snoc.
  destruct (10 <=? length g)%nat.
  - now rewrite <- !app_assoc.
  - rewrite !removelast_last. now rewrite <- !app_assoc.
Qed.

Lemma fold_batch_step_app {A : Type} (data : list A) (acc bs : list (list A)) :
  bs <> [] ->
  fold_left batch_step data (acc ++ bs) = acc ++ fold_left batch_step data bs.
Proof.
  revert bs. induction data as [|metric data IH]; intros bs Hne; [reflexivity |].
  cbn [fold_left]. rewrite batch_step_app by assumption.
  apply IH, batch_step_nonempty.
Qed.

Lemma batched_multiple_of_10 {A : Type} (groups : list (list A)) (q : nat) :
  batched groups -> length (concat groups) = (10 * q)%nat ->
  match last groups with
  | Some g => length g = 10%nat
  | None => groups = []
  end.
Proof.
  intros [|full lst Hfull Hlst] Hlen; [reflexivity |].
  rewrite last_snoc.
  assert (Hf : length (concat full) = (10 * length full)%nat).
  { clear Hlen. induction Hfull as [|g full Hg _ IH]; cbn; [reflexivity |].
    rewrite length_app, IH, Hg. lia. }
  rewrite concat_app in Hlen. cbn [concat] in Hlen.
  rewrite app_nil_r, length_app, Hf in Hlen. lia.
Qed.

(** X7.  Batching distributes over concatenation at a multiple of 10:
    when the first list holds a multiple of 10 records, the groups of the
    concatenation are the groups of the first list followed by the groups
    of the second. *)
Theorem batches_app_multiple_of_10 {A : Type} (l1 l2 : list A) (q : nat) :
  length l1 = (10 * q)%nat ->
  batches (l1 ++ l2) = batches l1 ++ batches l2.
Proof.
  intros Hlen. unfold batches at 1. rewrite fold_left_app. fold (batches l1).
  destruct (batches_batched l1) as [Hb Hc].
  pose proof (batched_multiple_of_10 (batches l1) q Hb) as Hlast.
  rewrite Hc in Hlast. specialize (Hlast Hlen).
  destruct l2 as [|metric l2]; [cbn; now rewrite app_nil_r |].
  cbn [fold_left].
  assert (Hstep : batch_step (batches l1) metric = batches l1 ++ [[metric]]).
  { unfold batch_step. destruct (last (batches l1)) as [g|]; [| reflexivity].
    now rewrite Hlast. }
  rewrite Hstep, fold_batch_step_app by discriminate. reflexivity.
Qed.

Lemma batches_app_multiple_of_10_witness :
  batches (seq 0 20 ++ seq 20 5) = batches (seq 0 20) ++ batches (seq 20 5).
Proof.
  apply (batches_app_multiple_of_10 (seq 0 20) (seq 20 5) 2). reflexivity.
Defined.

(** X8.  Every [putMetricData] call of [sendData] carries the namespace of
    the event, or [Watchtower] when the event has none or an empty one, and
    between 1 and 10 records; the calls, in order, carry all the records in
    their order. *)
Theorem sendData_calls (data : list MetricRecord) (event : Event) :
  Forall (fun call =>
            Namespace call
            = match namespace event with
              | Some ns => if String.eqb ns EmptyString then "Watchtower" else ns
              | None => "Watchtower"
              end
            /\ (1 <= length (MetricData call) <= 10)%nat)
         (sendData data event)
  /\ concat (map MetricData (sendData data event)) = data.
Proof.
  destruct (batches_batched data) as [Hb Hc].
  destruct (batched_sizes _ Hb) as [Hsz _].
  split; [| now rewrite sendData_groups].
  unfold sendData. apply Forall_map. eapply Forall_impl; [exact Hsz |].
  intros g Hg. cbn [Namespace MetricData]. split; [| exact Hg].
  unfold str_or. destruct (namespace event) as [ns|]; [| reflexivity].
  destruct (String.eqb ns EmptyString); reflexivity.
Qed.

Lemma metricData_length (timestamp : Z) (event : Event) (results : list Data) :
  length (metricData timestamp event results)
  = (length results * (length (includedTimings event) + 1))%nat.
Proof.
  rewrite metricData_blocks.
  induction results as [|r results IH]; [reflexivity |].
  cbn [map concat]. rewrite length_app, IH. cbn [length]. rewrite length_map. lia.
Qed.

(** X9.  For N results and K included timings the handler makes
    ceil(N * (K + 1) / 10) calls of [putMetricData]; with no result it makes
    none. *)
Theorem putMetricData_call_count (timestamp : Z) (event : Event) (results : list Data) :
  length (sendData (metricData timestamp event results) event)
  = ((length results * (length (includedTimings event) + 1) + 9) / 10)%nat
  /\ sendData (metricData timestamp event []) event = [].
Proof.
  split; [| reflexivity].
  unfold sendData. rewrite length_map, batches_count, metricData_length. reflexivity.
Qed.

(** ** Incident reconciliation *)

Lemma createIncident_shape (result : Data) (incidents : list Incident) :
  Forall (fun q => is_create q = true /\ is_resolve q = false
                   /\ is_component_update q = false)
         (createIncident result incidents)
  /\ (length (createIncident result incidents) <= 1)%nat.
Proof.
  unfold createIncident. destruct (length _ =? 0)%nat; cbn [length].
  - split; [| lia]. repeat constructor.
  - split; [constructor | lia].
Qed.

Lemma resolveIncident_shape (result : Data) (incidents : list Incident) :
  Forall (fun q => is_create q = false /\ is_resolve q = true
                   /\ is_component_update q = false)
         (resolveIncident result incidents)
  /\ (length (resolveIncident result incidents) <= 1)%nat.
Proof.
  unfold resolveIncident. destruct (List.filter _ incidents) as [|i [|j rest]]; cbn [length].
  - split; [constructor | lia].
  - split; [| lia]. constructor; [| constructor].
    split; [reflexivity |]. split; [| reflexivity].
    unfold is_resolve. cbn [method endpoint]. now rewrite prefix_append.
  - split; [constructor | lia].
Qed.

Lemma on_component_updated_shape (result : Data) (incidents : list Incident) :
  Forall (fun q => is_incident_action q = true /\ is_component_update q = false)
         (on_component_updated result incidents)
  /\ (length (on_component_updated result incidents) <= 1)%nat.
Proof.
  unfold on_component_updated. destruct (negb (is_200 (statusCode result))).
  - destruct (createIncident_shape result incidents) as [Hall Hlen].
    split; [| exact Hlen]. eapply Forall_impl; [exact Hall |].
    intros q (Hc & _ & Hu). unfold is_incident_action. now rewrite Hc.
  - destruct (resolveIncident_shape result incidents) as [Hall Hlen].
    split; [| exact Hlen]. eapply Forall_impl; [exact Hall |].
    intros q (_ & Hr & Hu). unfold is_incident_action. rewrite Hr. split; [apply orb_true_r | exact Hu].
Qed.

Lemma filter_all_true {A : Type} (f : A -> bool) (l : list A) :
  Forall (fun x => f x = true) l -> List.filter f l = l.
Proof.
  induction 1 as [|x l Hx _ IH]; [reflexivity |]. cbn. now rewrite Hx, IH.
Qed.

Lemma filter_all_false {A : Type} (f : A -> bool) (l : list A) :
  Forall (fun x => f x = false) l -> List.filter f l = [].
Proof.
  induction 1 as [|x l Hx _ IH]; [reflexivity |]. cbn. now rewrite Hx, IH.
Qed.

Lemma updateComponent_kind (result : Data) :
  is_component_update (updateComponent result) = true
  /\ is_incident_action (updateComponent result) = false.
Proof.
  split; [| reflexivity].
  unfold is_component_update, updateComponent. cbn [method endpoint].
  now rewrite prefix_append.
Qed.

(** X10.  For one result the reconciliation sends exactly one component
    update and at most one incident request, and no incident request at all
    when the component update failed. *)
Theorem reconcile_result_requests
  (update_ok : bool) (result : Data) (incidents : list Incident) :
  List.filter is_component_update (reconcile_result update_ok result incidents)
  = [updateComponent result]
  /\ (length (List.filter is_incident_action
                (reconcile_result update_ok result incidents)) <= 1)%nat
  /\ List.filter is_incident_action (reconcile_result false result incidents) = [].
Proof.
  destruct (updateComponent_kind result) as [Hu Hi].
  destruct (on_component_updated_shape result incidents) as [Hall Hlen].
  unfold reconcile_result. cbn [List.filter]. rewrite Hu, Hi.
  split; [| split; [| reflexivity]].
  - f_equal. destruct update_ok; [| reflexivity].
    apply filter_all_false. eapply Forall_impl; [exact Hall |]. now intros q [_ H].
  - destruct update_ok; [| cbn; lia].
    rewrite filter_all_true; [exact Hlen |].
    eapply Forall_impl; [exact Hall |]. now intros q [H _].
Qed.

(** X12.  Creation is blocked exactly by an incident of the fetched list
    that has the expected name and is not [Resolved]: a resolved incident of
    the same name does not prevent a new one. *)
Theorem createIncident_blocked_iff (result : Data) (response : list Incident) :
  createIncident result (getOpenIncidents response) = []
  <-> exists i, In i response /\ i_name i = incidentName result
                /\ i_status i <> "Resolved".
Proof.
  unfold createIncident, getOpenIncidents.
  set (existing := List.filter _ (List.filter _ response)).
  assert (Hin : forall i, In i existing
                          <-> In i response /\ i_status i <> "Resolved"
                              /\ i_name i = incidentName result).
  { intros i. unfold existing. rewrite !filter_In, negb_true_iff.
    destruct (String.eqb_spec (i_status i) "Resolved");
      destruct (String.eqb_spec (i_name i) (incidentName result)); split;
      intros H; try tauto; try (destruct H as [[_ H] _]; discriminate H);
      try (destruct H as [_ H]; discriminate H). }
  split.
  - destruct existing as [|i rest]; [discriminate |]. intros _.
    exists i. destruct (proj1 (Hin i) (or_introl eq_refl)) as (H1 & H2 & H3). tauto.
  - intros (i & H1 & H2 & H3).
    assert (Hi : In i existing) by (apply Hin; tauto).
    destruct existing; [destruct Hi | reflexivity].
Qed.

(** X13.  The reconciliation branch always starts with [GET incidents].
    When that request fails nothing else is sent, not even a component
    update; when it succeeds there is exactly one component update per
    result, in the order of the results, and at most one incident request
    per result. *)
Theorem reconcile_requests (response : list Incident) (results : list (Data * bool)) :
  reconcile None results = [ {| endpoint := "incidents"; body := None; method := "GET" |} ]
  /\ List.filter is_component_update (reconcile (Some response) results)
     = map (fun x => updateComponent (fst x)) results
  /\ (length (List.filter is_incident_action (reconcile (Some response) results))
      <= length results)%nat.
Proof.
  split; [reflexivity |]. unfold reconcile. cbn [List.filter].
  change (is_component_update {| endpoint := "incidents"; body := None; method := "GET" |})
    with false.
  change (is_incident_action {| endpoint := "incidents"; body := None; method := "GET" |})
    with false.
  cbv iota. split.
  - induction results as [|x results IH]; [reflexivity |].
    cbn [flat_map map]. rewrite List.filter_app, IH.
    destruct (reconcile_result_requests (snd x) (fst x) (getOpenIncidents response))
      as [-> _]. reflexivity.
  - induction results as [|x results IH]; [cbn; lia |].
    cbn [flat_map length]. rewrite List.filter_app, length_app.
    destruct (reconcile_result_requests (snd x) (fst x) (getOpenIncidents response))
      as (_ & Hle & _). lia.
Qed.

(** X14.  The open incidents are fetched once for the whole loop, so
    results do not see the incidents created for earlier results: when every
    result is unhealthy, its component update succeeded and no open incident
    has its name, one incident is created per result, also for results that
    share a name.  The incidents created are, in some order, those each
    result would get with no open incident at all. *)
Theorem reconcile_creates_per_result (response : list Incident) (results : list (Data * bool)) :
  Forall (fun x =>
            snd x = true /\ statusCode (fst x) <> Num 200
            /\ forall i, In i response -> i_status i <> "Resolved" ->
                         i_name i <> incidentName (fst x))
         results ->
  Permutation (List.filter is_create (reconcile (Some response) results))
              (flat_map (fun x => createIncident (fst x) []) results)
  /\ length (List.filter is_create (reconcile (Some response) results)) = length results.
Proof.
  intros Hall.
  enough (H : List.filter is_create (reconcile (Some response) results)
              = flat_map (fun x => createIncident (fst x) []) results
              /\ length (List.filter is_create (reconcile (Some response) results))
                 = length results).
  { destruct H as [Heq Hlen]. split; [now rewrite Heq | exact Hlen]. }
  unfold reconcile. cbn [List.filter].
  change (is_create {| endpoint := "incidents"; body := None; method := "GET" |}) with false.
  cbv iota.
  induction Hall as [|[r ok] results (Hok & Hs & Hno) _ [IH1 IH2]]; [split; reflexivity |].
  cbn [fst snd] in Hok, Hs, Hno. subst ok.
  cbn [flat_map fst snd]. rewrite List.filter_app, length_app, IH2, IH1.
  assert (Hcreate : createIncident r (getOpenIncidents response) = createIncident r []).
  { unfold createIncident at 1.
    replace (List.filter _ (getOpenIncidents response)) with (@nil Incident); [reflexivity |].
    symmetry. apply filter_all_false. apply List.Forall_forall. intros i Hi.
    unfold getOpenIncidents in Hi. apply filter_In in Hi as [Hi Hst].
    apply negb_true_iff in Hst.
    destruct (String.eqb_spec (i_name i) (incidentName r)) as [E|]; [| reflexivity].
    exfalso. apply (Hno i Hi); [| exact E].
    intros E'. rewrite E' in Hst. discriminate Hst. }
  unfold reconcile_result, on_component_updated.
  apply is_200_false in Hs. rewrite Hs. cbn [negb List.filter].
  change (is_create (updateComponent r)) with false. cbv iota.
  rewrite Hcreate. cbn. split; reflexivity.
Qed.

Lemma reconcile_creates_per_result_witness :
  length (List.filter is_create (reconcile (Some []) results_twice_X)) = 2%nat.
Proof.
  apply (reconcile_creates_per_result [] results_twice_X).
  repeat constructor; try discriminate; intros i [].
Defined.

(** ** The probes *)

(** The cases of one listener call of a known check. *)
Ltac event_cases e :=
  destruct e as [[] ?]; step_simpl;
  repeat match goal with
    | |- context [if ?b then _ else _] => destruct b eqn:?; step_simpl
    end.

(** Rewrite the lookups of the stamps written by one listener call. *)
Ltac stamp_simpl :=
  repeat first
    [ rewrite lookup_insert_eq
    | rewrite lookup_insert_ne by discriminate ].

Lemma step_start (k : kind) (p : Probe) (e : event * hrtime) :
  timings (data (step k p e)) !! "start" = timings (data p) !! "start".
Proof. step_cases k e; stamp_simpl; reflexivity. Qed.

Lemma step_terminal_durations (k : kind) (p : Probe) (ev : event) (now : hrtime) :
  terminal k ev = true ->
  timings (data (step k p (ev, now))) = <[ "close" := now ]> (timings (data p))
  /\ durations (data (step k p (ev, now)))
     = Some (processTimings (<[ "close" := now ]> (timings (data p)))).
Proof.
  intros Hterm. destruct k, ev; step_simpl; try discriminate; split; reflexivity.
Qed.

(** X15.  No listener writes [start], so the total of a probe is measured
    from the reading taken at launch: after a terminal event whose reading
    differs in milliseconds from the launch reading, the total duration is
    the difference of the two millisecond values, whatever happened in
    between. *)
Theorem total_measured_from_launch
  (k : kind) (target : Target) (t0 : hrtime)
  (trace : list (event * hrtime)) (e : event) (now : hrtime) :
  terminal k e = true ->
  hrToMs t0 <> hrToMs now ->
  let p := run k (init k (new_data target t0)) (trace ++ [(e, now)]) in
  timings (data p) !! "start" = Some t0
  /\ exists d, durations (data p) = Some d /\ d_total d = Num (hrToMs now - hrToMs t0).
Proof.
  intros Hterm Hne p. subst p. rewrite run_app.
  set (p0 := run k (init k (new_data target t0)) trace).
  assert (Hstart : timings (data p0) !! "start" = Some t0).
  { subst p0.
    apply (run_invariant (fun q => timings (data q) !! "start" = Some t0)).
    - intros q x Hq. now rewrite step_start.
    - cbn. apply lookup_singleton_eq. }
  cbn [run fold_left].
  destruct (step_terminal_durations k p0 e now Hterm) as [Ht Hd].
  split; [now rewrite step_start |].
  eexists. split; [exact Hd |].
  assert (Hfrom : <[ "close" := now ]> (timings (data p0)) !! interval_from ITotal = Some t0).
  { cbn [interval_from]. now rewrite lookup_insert_ne by discriminate. }
  assert (Hto : <[ "close" := now ]> (timings (data p0)) !! interval_to ITotal = Some now).
  { cbn [interval_to]. apply lookup_insert_eq. }
  destruct (interval_duration_nonzero ITotal _ t0 now Hfrom Hto Hne) as [E _].
  exact E.
Qed.

Lemma total_measured_from_launch_witness :
  exists d,
    durations (data (run Port (init Port (new_data target_port (1, 0)))
                         (trace_port_two_chunks ++ [(EvClose, (1, 9000000))])))
    = Some d
    /\ d_total d = Num (hrToMs (1, 9000000) - hrToMs (1, 0)).
Proof.
  apply (total_measured_from_launch Port target_port (1, 0)
           trace_port_two_chunks EvClose (1, 9000000));
    [reflexivity | vm_compute; discriminate].
Defined.

(** X16.  A port or smtp probe never records [secureConnect]; the
    [secureConnect] duration of its result is therefore always [-1]. *)
Theorem socket_probe_no_secure_phase
  (k : kind) (target : Target) (t0 : hrtime) (trace : list (event * hrtime)) :
  k <> Http ->
  let p := run k (init k (new_data target t0)) trace in
  timings (data p) !! "secureConnect" = None
  /\ forall d, durations (data p) = Some d -> d_secureConnect d = Num (-1).
Proof.
  intros Hk p. subst p.
  apply (run_invariant
           (fun q => timings (data q) !! "secureConnect" = None
                     /\ forall d, durations (data q) = Some d -> d_secureConnect d = Num (-1))).
  - intros q x [Hsc Hd].
    assert (Hins : forall key now, key <> "secureConnect" ->
                     timingsDiff (<[ "close" := now ]> (timings (data q)))
                                 "connect" "secureConnect" = Num (-1)).
    { intros key now _. apply timingsDiff_absent. right.
      now rewrite lookup_insert_ne by discriminate. }
    destruct k; [congruence | |];
      destruct x as [[] now]; step_simpl;
      repeat match goal with
        | |- context [if ?b then _ else _] => destruct b eqn:?; step_simpl
        end;
      (split; [stamp_simpl; assumption |]);
      try assumption;
      intros d [= <-]; cbn [processTimings d_secureConnect];
      apply (Hins "close" now); discriminate.
  - split; [reflexivity | discriminate].
Qed.

Lemma socket_probe_no_secure_phase_witness :
  timings (data (run Port (init Port (new_data target_port (1, 0))) trace_port_two_chunks))
    !! "secureConnect" = None.
Proof.
  apply (socket_probe_no_secure_phase Port target_port (1, 0) trace_port_two_chunks).
  discriminate.
Defined.

(** X17.  The listeners write only the seven phase names: the keys of
    [timings] are always among [start], [lookup], [connect],
    [secureConnect], [readable], [end] and [close]. *)
Theorem timings_keys_bounded
  (k : kind) (target : Target) (t0 : hrtime) (trace : list (event * hrtime)) :
  dom (timings (data (run k (init k (new_data target t0)) trace))) ⊆ timing_keys.
Proof.
  assert (Hins : forall key now (m : gmap string hrtime),
             key ∈ timing_keys -> dom m ⊆ timing_keys ->
             dom (<[ key := now ]> m) ⊆ timing_keys).
  { intros key now m Hkey Hm. rewrite dom_insert_L.
    apply union_least; [now apply singleton_subseteq_l | exact Hm]. }
  assert (Hkeys : forall key : string,
             key ∈ ["start"; "lookup"; "connect"; "secureConnect"; "readable";
                    "end"; "close"] ->
             key ∈ timing_keys).
  { intros key Hkey. unfold timing_keys. now apply elem_of_list_to_set. }
  apply (run_invariant (fun q => dom (timings (data q)) ⊆ timing_keys)).
  - intros q x Hq.
    step_cases k x; try exact Hq; (apply Hins; [| exact Hq]);
      apply Hkeys;
      repeat first [ apply list_elem_of_here | apply list_elem_of_further ].
  - cbn [new_data init data timings]. rewrite dom_singleton_L.
    apply singleton_subseteq_l, Hkeys, list_elem_of_here.
Qed.

(** X18.  A probe is in one of two conditions.  Before its first terminal
    event the promise is pending, [resolve] has not been called, and the
    result has neither durations nor a [close] stamp.  From then on the
    promise is fulfilled and the result has both. *)
Theorem probe_settled_or_pending
  (k : kind) (target : Target) (t0 : hrtime) (trace : list (event * hrtime)) :
  let p := run k (init k (new_data target t0)) trace in
  (promise p = Pending /\ resolve_calls p = 0%nat
   /\ durations (data p) = None /\ timings (data p) !! "close" = None
   /\ Forall (fun x => terminal k (fst x) = false) trace)
  \/ (promise p = Fulfilled /\ (0 < resolve_calls p)%nat
      /\ is_Some (durations (data p)) /\ is_Some (timings (data p) !! "close")
      /\ Exists (fun x => terminal k (fst x) = true) trace).
Proof.
  cbv zeta. induction trace as [|e trace IH] using rev_ind.
  - left. repeat split; constructor.
  - rewrite run_app. cbn [run fold_left].
    set (p := run k (init k (new_data target t0)) trace) in *.
    destruct (terminal k (fst e)) eqn:Hterm.
    + right.
      assert (Hrej : promise p <> Rejected).
      { destruct IH as [(-> & _) | (-> & _)]; discriminate. }
      destruct e as [ev now]. cbn [fst] in Hterm.
      destruct (step_terminal k p ev now Hterm Hrej) as (Hf & Hc & Hd & Hcl).
      repeat split; try assumption.
      * rewrite Hc. lia.
      * rewrite Hcl. eexists. reflexivity.
      * apply Exists_app. right. constructor. exact Hterm.
    + destruct (step_nonterminal k p e Hterm) as [Hprom Hcalls].
      destruct IH as [(Hp & Hc & Hd & Hcl & Hall) | (Hp & Hc & Hd & Hcl & Hex)].
      * left. rewrite Hprom, Hcalls. repeat split; try assumption.
        -- clear - Hterm Hd. step_cases k e; try discriminate; assumption.
        -- clear - Hterm Hcl. step_cases k e; try discriminate; stamp_simpl; assumption.
        -- apply Forall_app. split; [exact Hall |]. constructor; [exact Hterm | constructor].
      * right. rewrite Hprom, Hcalls. repeat split; try assumption.
        -- now apply step_durations_defined.
        -- now apply step_close_defined.
        -- apply Exists_app. left. exact Hex.
Qed.

(** X24.  [resolve] is called once for every terminal event delivered to
    the probe, not once per probe: error, timeout and close in combination
    call it several times, of which only the first settles the promise. *)
Theorem resolve_called_per_terminal_event
  (k : kind) (d : Data) (trace : list (event * hrtime)) :
  resolve_calls (run k (init k d) trace)
  = length (List.filter (fun x => terminal k (fst x)) trace).
Proof.
  enough (H : forall tr p,
             resolve_calls (run k p tr)
             = (resolve_calls p + length (List.filter (fun x => terminal k (fst x)) tr))%nat).
  { now rewrite H. }
  induction tr as [|e tr IH]; intros p.
  - unfold run. cbn [fold_left List.filter length]. lia.
  - rewrite run_cons, IH, step_resolve_calls. cbn [List.filter].
    destruct (terminal k (fst e)); cbn [length]; lia.
Qed.

(** X20.  What the checks never do.  The http check never ends, destroys
    or writes to a socket; the port check never writes; neither socket check
    aborts a request or holds a timer of its own, and each has destroyed its
    socket exactly when its promise is fulfilled. *)
Theorem probe_side_effects
  (k : kind) (d : Data) (trace : list (event * hrtime)) :
  let p := run k (init k d) trace in
  match k with
  | Http => destroyed p = false /\ ended p = false /\ written p = [] /\ greeting p = false
  | Port => written p = [] /\ greeting p = false /\ aborted p = false
            /\ timer_live p = false
            /\ (destroyed p = true <-> promise p = Fulfilled)
  | Smtp => aborted p = false /\ timer_live p = false
            /\ (destroyed p = true <-> promise p = Fulfilled)
  end.
Proof.
  cbv zeta. destruct k.
  - apply (run_invariant
             (fun p => destroyed p = false /\ ended p = false /\ written p = []
                       /\ greeting p = false)).
    + intros p e H. event_cases e; exact H.
    + repeat split.
  - enough (H : written (run Port (init Port d) trace) = []
                /\ greeting (run Port (init Port d) trace) = false
                /\ aborted (run Port (init Port d) trace) = false
                /\ timer_live (run Port (init Port d) trace) = false
                /\ (destroyed (run Port (init Port d) trace) = true
                    <-> promise (run Port (init Port d) trace) = Fulfilled)
                /\ promise (run Port (init Port d) trace) <> Rejected) by tauto.
    apply (run_invariant
             (fun p => written p = [] /\ greeting p = false /\ aborted p = false
                       /\ timer_live p = false
                       /\ (destroyed p = true <-> promise p = Fulfilled)
                       /\ promise p <> Rejected)).
    + intros p e (Hw & Hg & Ha & Ht & Hd & Hr).
      destruct (promise p) eqn:Hp; [| | congruence];
        event_cases e; rewrite ?Hp; intuition congruence.
    + cbn. intuition congruence.
  - enough (H : aborted (run Smtp (init Smtp d) trace) = false
                /\ timer_live (run Smtp (init Smtp d) trace) = false
                /\ (destroyed (run Smtp (init Smtp d) trace) = true
                    <-> promise (run Smtp (init Smtp d) trace) = Fulfilled)
                /\ promise (run Smtp (init Smtp d) trace) <> Rejected) by tauto.
    apply (run_invariant
             (fun p => aborted p = false /\ timer_live p = false
                       /\ (destroyed p = true <-> promise p = Fulfilled)
                       /\ promise p <> Rejected)).
    + intros p e (Ha & Ht & Hd & Hr).
      destruct (promise p) eqn:Hp; [| | congruence];
        event_cases e; rewrite ?Hp; intuition congruence.
    + cbn. intuition congruence.
Qed.

(** X19.  The timer of the http check does not outlive the probe: once
    the promise is fulfilled the timer is cleared, and its expiry would no
    longer abort anything. *)
Theorem http_timer_cleared_when_settled (d : Data) (trace : list (event * hrtime)) :
  let p := run Http (init Http d) trace in
  promise p = Fulfilled ->
  timer_live p = false /\ forall now, step Http p (EvTimer, now) = p.
Proof.
  cbv zeta.
  enough (H : promise (run Http (init Http d) trace) = Fulfilled ->
              timer_live (run Http (init Http d) trace) = false).
  { intros Hf. specialize (H Hf). split; [exact H |].
    intros now. step_simpl. now rewrite H. }
  apply (run_invariant (fun p => promise p = Fulfilled -> timer_live p = false)).
  - intros p e Hp. event_cases e; auto.
  - discriminate.
Qed.

Lemma http_timer_cleared_when_settled_witness :
  timer_live (run Http (init Http (new_data target_http (1, 0))) trace_http_404) = false.
Proof.
  apply (http_timer_cleared_when_settled (new_data target_http (1, 0)) trace_http_404).
  reflexivity.
Defined.

Lemma http_status_kept (p : Probe) (e : event * hrtime) (code : Z) :
  statusCode (data p) = Num code -> is_response (fst e) = false ->
  statusCode (data (step Http p e)) = Num code.
Proof.
  intros Hs He. event_cases e; try discriminate; try assumption.
  now rewrite Hs.
Qed.

(** X21.  The status code of an http result is that of the last response:
    an error, a close or any other event after the response leaves it as
    it is. *)
Theorem http_status_is_last_response
  (p : Probe) (pre post : list (event * hrtime)) (code : Z) (t : hrtime) :
  Forall (fun x => is_response (fst x) = false) post ->
  statusCode (data (run Http p (pre ++ (EvResponse code, t) :: post))) = Num code.
Proof.
  intros Hpost. rewrite run_app, run_cons.
  set (q := step Http (run Http p pre) (EvResponse code, t)).
  assert (Hq : statusCode (data q) = Num code) by reflexivity.
  clearbody q. revert q Hq.
  induction Hpost as [|e post He _ IH]; intros q Hq; [exact Hq |].
  rewrite run_cons. apply IH. now apply http_status_kept.
Qed.

Lemma http_status_is_last_response_witness :
  statusCode (data (run Http (init Http (new_data target_http (1, 0)))
                        ([(EvConnect, (1, 3000000))]
                           ++ (EvResponse 503, (1, 20000000))
                           :: trace_http_response_then_error)))
  = Num 503.
Proof.
  apply (http_status_is_last_response (init Http (new_data target_http (1, 0)))
           [(EvConnect, (1, 3000000))] trace_http_response_then_error 503 (1, 20000000)).
  repeat constructor.
Defined.

(** X22.  The port check ends its socket exactly when some data has
    arrived, and [readable] then holds the reading of the last chunk:
    every chunk stamps it again. *)
Theorem port_readable_is_last_chunk
  (target : Target) (t0 : hrtime) (trace : list (event * hrtime)) :
  let p := run Port (init Port (new_data target t0)) trace in
  timings (data p) !! "readable" = last_data_time trace
  /\ ended p = stamped (last_data_time trace).
Proof.
  cbv zeta. unfold last_data_time.
  set (f := fun (acc : option hrtime) (x : event * hrtime) =>
              match fst x with EvData _ => Some (snd x) | _ => acc end).
  enough (H : forall tr p acc,
             timings (data p) !! "readable" = acc ->
             ended p = stamped acc ->
             timings (data (run Port p tr)) !! "readable" = fold_left f tr acc
             /\ ended (run Port p tr) = stamped (fold_left f tr acc)).
  { apply H; reflexivity. }
  induction tr as [|e tr IH]; intros p acc Hr He; [split; assumption |].
  rewrite run_cons. cbn [fold_left]. apply IH.
  - subst f. event_cases e; stamp_simpl; try assumption; reflexivity.
  - subst f. event_cases e; try assumption; reflexivity.
Qed.

(** The status code of a socket check is [undefined] before the first
    terminal event and [0] or [-1] after it. *)
Lemma socket_status_range (k : kind) (target : Target) (t0 : hrtime)
  (trace : list (event * hrtime)) :
  k <> Http ->
  let s := statusCode (data (run k (init k (new_data target t0)) trace)) in
  s = Undef \/ s = Num 0 \/ s = Num (-1).
Proof.
  intros Hk. cbv zeta.
  apply (run_invariant
           (fun p => statusCode (data p) = Undef \/ statusCode (data p) = Num 0
                     \/ statusCode (data p) = Num (-1))).
  - intros p e Hp. destruct k; [congruence | |]; event_cases e; tauto.
  - left. reflexivity.
Qed.

(** X11.  The result of a port or smtp check never has status code 200:
    its component is always reported as [Major Outage], and the
    reconciliation never resolves an incident for it. *)
Theorem socket_probe_never_healthy
  (k : kind) (target : Target) (t0 : hrtime) (trace : list (event * hrtime))
  (update_ok : bool) (incidents : list Incident) :
  k <> Http ->
  let result := data (run k (init k (new_data target t0)) trace) in
  statusCode result <> Num 200
  /\ body (updateComponent result) = Some [("status", "Major Outage")]
  /\ List.filter is_resolve (reconcile_result update_ok result incidents) = [].
Proof.
  intros Hk result.
  assert (Hs : is_200 (statusCode result) = false).
  { destruct (socket_status_range k target t0 trace Hk) as [H | [H | H]];
      cbv zeta in H; fold result in H; now rewrite H. }
  split; [now apply is_200_false |].
  split; [unfold updateComponent; now rewrite Hs |].
  unfold reconcile_result, on_component_updated. rewrite Hs. cbn [negb List.filter].
  change (is_resolve (updateComponent result)) with false. cbv iota.
  destruct update_ok; [| reflexivity].
  apply filter_all_false.
  destruct (createIncident_shape result incidents) as [Hall _].
  eapply Forall_impl; [exact Hall |]. now intros q (_ & H & _).
Qed.

Lemma socket_probe_never_healthy_witness :
  body (updateComponent
          (data (run Port (init Port (new_data target_port (1, 0)))
                     (trace_port_two_chunks ++ [(EvClose, (1, 9000000))]))))
  = Some [("status", "Major Outage")].
Proof.
  apply (socket_probe_never_healthy Port target_port (1, 0)
           (trace_port_two_chunks ++ [(EvClose, (1, 9000000))]) true []).
  discriminate.
Defined.

(** X26.  The smtp check over a whole session: [EHLO] has been written
    exactly when some chunk started with [220]; the socket has been ended
    exactly when some chunk started with [250], with or without a greeting
    before it; and [readable] holds the reading of the last such chunk. *)
Theorem smtp_session_summary
  (target : Target) (t0 : hrtime) (trace : list (event * hrtime)) :
  let p := run Smtp (init Smtp (new_data target t0)) trace in
  written p = (if existsb (fun x => is_greeting_chunk (fst x)) trace then [EHLO] else [])
  /\ timings (data p) !! "readable" = last_ok_time trace
  /\ ended p = stamped (last_ok_time trace).
Proof.
  cbv zeta. unfold last_ok_time.
  set (f := fun (acc : option hrtime) (x : event * hrtime) =>
              if is_ok_chunk (fst x) then Some (snd x) else acc).
  enough (H : forall tr p acc (g : bool),
             written p = (if g then [EHLO] else []) -> greeting p = g ->
             timings (data p) !! "readable" = acc ->
             ended p = stamped acc ->
             written (run Smtp p tr)
             = (if g || existsb (fun x => is_greeting_chunk (fst x)) tr
                then [EHLO] else [])
             /\ timings (data (run Smtp p tr)) !! "readable" = fold_left f tr acc
             /\ ended (run Smtp p tr) = stamped (fold_left f tr acc)).
  { apply (H trace _ None false); reflexivity. }
  induction tr as [|e tr IH]; intros p acc g Hw Hg Hr He.
  - cbn [existsb]. rewrite orb_false_r. repeat split; assumption.
  - rewrite run_cons. cbn [fold_left existsb]. rewrite orb_assoc.
    destruct (smtp_step_written p e) as [Hw' Hg'].
    apply IH.
    + rewrite Hw', Hw, Hg. destruct g, (is_greeting_chunk (fst e)); reflexivity.
    + now rewrite Hg', Hg.
    + subst f. cbv beta.
      destruct e as [[] now]; cbn [is_ok_chunk fst snd]; step_simpl; stamp_simpl;
        try assumption.
      destruct (String.prefix "220" chunk && negb (greeting p)) eqn:Eg; step_simpl.
      * apply andb_true_iff in Eg as [E220 _].
        destruct (String.prefix "250" chunk) eqn:E250; [| assumption].
        apply prefix_250_not_220 in E250. congruence.
      * destruct (String.prefix "250" chunk); step_simpl; stamp_simpl;
          [reflexivity | assumption].
    + subst f. cbv beta.
      destruct e as [[] now]; cbn [is_ok_chunk fst snd]; step_simpl; try assumption.
      destruct (String.prefix "220" chunk && negb (greeting p)) eqn:Eg; step_simpl.
      * apply andb_true_iff in Eg as [E220 _].
        destruct (String.prefix "250" chunk) eqn:E250; [| assumption].
        apply prefix_250_not_220 in E250. congruence.
      * destruct (String.prefix "250" chunk); step_simpl; [reflexivity | assumption].
Qed.

(** ** Metric records *)

(** X25.  Every metric record is one the handler means to send: it
    carries the single timestamp of the invocation and is the status record
    of one of the results, or the timing record of one of the results for
    one of the included timings. *)
Theorem metricData_records (timestamp : Z) (event : Event) (results : list Data) :
  Forall (fun m =>
            Timestamp m = timestamp
            /\ exists result,
                In result results
                /\ (m = statusMetric timestamp result
                    \/ exists timing,
                        In timing (includedTimings event)
                        /\ m = timingMetric timestamp result timing))
         (metricData timestamp event results).
Proof.
  rewrite metricData_blocks. apply List.Forall_forall. intros m Hm.
  apply in_concat in Hm as (block & Hblock & Hm).
  apply in_map_iff in Hblock as (result & <- & Hresult).
  destruct Hm as [<- | Hm].
  - split; [reflexivity |]. exists result. split; [exact Hresult | left; reflexivity].
  - apply in_map_iff in Hm as (timing & <- & Htiming).
    split; [reflexivity |]. exists result. split; [exact Hresult |].
    right. exists timing. split; [exact Htiming | reflexivity].
Qed.

Lemma processTimings_get_integer (t : gmap string hrtime) (key : string) :
  In key duration_keys -> exists n, duration_get (processTimings t) key = Num n.
Proof.
  assert (Hnum : forall i, exists n, interval_duration i (processTimings t) = Num n).
  { intros i. rewrite interval_duration_spec.
    pose proof (timingsDiff_truthy t (interval_from i) (interval_to i)) as H.
    destruct (timingsDiff t (interval_from i) (interval_to i)); [discriminate | eauto]. }
  intros Hin. cbn in Hin.
  destruct Hin as [<- | [<- | [<- | [<- | [<- | [<- | []]]]]]].
  - exact (Hnum ILookup).
  - exact (Hnum IConnect).
  - exact (Hnum ISecureConnect).
  - exact (Hnum IReadable).
  - exact (Hnum IClose).
  - exact (Hnum ITotal).
Qed.

(** X27.  Once the promise of a probe is fulfilled, each of the six
    timing metrics of its result has an integer value, never [undefined],
    whichever events the probe has seen. *)
Theorem settled_probe_metrics_are_integers
  (k : kind) (target : Target) (t0 : hrtime) (trace : list (event * hrtime))
  (timestamp : Z) (timing : string) :
  let p := run k (init k (new_data target t0)) trace in
  promise p = Fulfilled ->
  In timing duration_keys ->
  exists n, Value (timingMetric timestamp (data p) timing) = Num n.
Proof.
  cbv zeta. intros Hf Hin. cbn [timingMetric Value]. unfold result_duration.
  enough (H : (promise (run k (init k (new_data target t0)) trace) = Fulfilled ->
               exists t, durations (data (run k (init k (new_data target t0)) trace))
                         = Some (processTimings t))).
  { destruct (H Hf) as [t ->]. now apply processTimings_get_integer. }
  clear Hf.
  apply (run_invariant
           (fun p => (promise p = Fulfilled ->
                      exists t, durations (data p) = Some (processTimings t))
                     /\ promise p <> Rejected)).
  - intros p e [Hd Hr].
    destruct (promise p) eqn:Hp; [| | congruence];
      step_cases k e; rewrite ?Hp; (split; [| discriminate]); intros Hf;
      try discriminate; eauto.
  - split; discriminate.
Qed.

Lemma settled_probe_metrics_are_integers_witness :
  exists n,
    Value (timingMetric 0
             (data (run Http (init Http (new_data target_http (1, 0))) trace_http_404))
             "total")
    = Num n.
Proof.
  apply (settled_probe_metrics_are_integers Http target_http (1, 0) trace_http_404 0 "total").
  - reflexivity.
  - cbn. tauto.
Defined.
